(** * Release-channel lookup service: the in-memory store and its reload path

    A shallow embedding of [internal/db/db.go] (the indexed store) and of
    [internal/server/server.go] (loading, reloading and the file watcher),
    followed by the properties of the store and of the reload path.

    Conventions of the embedding
    - A Go method with a pointer receiver is a computation in a small
      state-and-panic monad over the receiver's fields.
    - A [*Release] argument is a [ptr Release]: [None] is Go's [nil], and
      reading a field through it panics.
    - A Go [error] is [option string]: [None] is [nil], [Some msg] an error
      whose [Error()] text is [msg].
    - A Go map is a [gmap]; indexing a missing key with [m[k]] yields the zero
      value, written [default [] (m !! k)] for slices.
    - Calls on the zerolog logger only write to standard error; they change
      neither the store nor the control flow and are left out, except that the
      field reads in their arguments (the first statement of [Query] and of
      [Write]) are where a nil [*Release] panics. *)

From Stdlib Require Import ZArith String List.
From Stdlib.Strings Require Import Byte Ascii.
From stdpp Require Import base option list fin_maps gmap strings.

Local Open Scope string_scope.
Local Open Scope list_scope.

(** ** Go runtime notions shared by both packages *)

Module golang.

(** A pointer that may be nil. *)
Definition ptr (A : Type) : Type := option A.

(** The [error] interface, by its message. *)
Definition error : Type := option string.

(** A value-and-error pair [(v, err)] as returned by the standard library. *)
Inductive res (A : Type) : Type :=
| Ok (a : A)
| Err (e : string).
Arguments Ok {A} a.
Arguments Err {A} e.

(** How a call ends: it returns a value in a final state, or it panics
    having brought the state to [s]. *)
Inductive Outcome (S A : Type) : Type :=
| Returns (a : A) (s : S)
| Panics (s : S).
Arguments Returns {S A} a s.
Arguments Panics {S A} s.

Definition M (S A : Type) : Type := S -> Outcome S A.

Definition ret {S A} (a : A) : M S A := fun s => Returns a s.

Definition bind {S A B} (m : M S A) (k : A -> M S B) : M S B :=
  fun s => match m s with
           | Returns a s' => k a s'
           | Panics s' => Panics s'
           end.

Definition get {S} : M S S := fun s => Returns s s.

Definition modify {S} (f : S -> S) : M S unit := fun s => Returns tt (f s).

Definition panic {S A} : M S A := fun s => Panics s.

(** Reading through a pointer: the nil dereference panics. *)
Definition deref {S A} (p : ptr A) : M S A :=
  match p with
  | Some a => ret a
  | None => panic
  end.

(** Running a method of a field [get_f s] of the state, as in
    [s.db.Write(r)]: the field is read, the method runs on it, and the
    field is left holding the method's final receiver. *)
Definition on_field {S T A} (get_f : S -> T) (set_f : T -> S -> S)
    (m : M T A) : M S A :=
  fun s => match m (get_f s) with
           | Returns a t => Returns a (set_f t s)
           | Panics t => Panics (set_f t s)
           end.

(** [for _, x := range xs { body x }] *)
Fixpoint range {S A} (xs : list A) (body : A -> M S unit) : M S unit :=
  match xs with
  | [] => ret tt
  | x :: xs' => bind (body x) (fun _ => range xs' body)
  end.

End golang.

Import golang.

(** The monad is registered with stdpp's [MRet] and [MBind], which gives
    the notations [x ← m; k] and [m ;; k]. *)
#[global] Instance M_ret {S} : MRet (M S) := fun _ a => ret a.
#[global] Instance M_bind {S} : MBind (M S) := fun _ _ k m => bind m k.

(** ** Package [db] *)

Module db.

(** [type Release struct] *)
Record Release : Type := mkRelease {
  Container : string;
  ImagePath : string;
  ReleaseChannel : string
}.

(** [type ReleaseKey struct]; its fields carry the prefix [k] because the
    names [Container] and [ReleaseChannel] are taken by [Release]. *)
Record ReleaseKey : Type := mkReleaseKey {
  kContainer : string;
  kReleaseChannel : string
}.

#[global] Instance Release_eq_dec : EqDecision Release.
Proof. solve_decision. Defined.

#[global] Instance ReleaseKey_eq_dec : EqDecision ReleaseKey.
Proof. solve_decision. Defined.

#[global] Instance ReleaseKey_countable : Countable ReleaseKey :=
  inj_countable'
    (fun k => (kContainer k, kReleaseChannel k))
    (fun p => mkReleaseKey p.1 p.2)
    (fun k => match k with mkReleaseKey _ _ => eq_refl end).

(** [func (r *Release) ToKey() ReleaseKey] *)
Definition ToKey (r : Release) : ReleaseKey :=
  {| kContainer := Container r; kReleaseChannel := ReleaseChannel r |}.

(** [type Releases []*Release]. Every pointer the store holds has been
    read through before it is stored, so the elements are values. *)
Abbreviation Releases := (list Release).

(** [func (rk *ReleaseKey) String() string] *)
Definition ReleaseKey_String (rk : ReleaseKey) : string :=
  kContainer rk +:+ "/" +:+ kReleaseChannel rk.

(** [type inMem struct], without the logger. *)
Record inMem : Type := mkInMem {
  all : Releases;
  byChannel : gmap string Releases;
  byContainer : gmap string Releases;
  byBoth : gmap ReleaseKey Release
}.

Definition set_all (v : Releases) (im : inMem) : inMem :=
  mkInMem v (byChannel im) (byContainer im) (byBoth im).
Definition set_byChannel (v : gmap string Releases) (im : inMem) : inMem :=
  mkInMem (all im) v (byContainer im) (byBoth im).
Definition set_byContainer (v : gmap string Releases) (im : inMem) : inMem :=
  mkInMem (all im) (byChannel im) v (byBoth im).
Definition set_byBoth (v : gmap ReleaseKey Release) (im : inMem) : inMem :=
  mkInMem (all im) (byChannel im) (byContainer im) v.

(** [func NewInMemoryStore(gl *zerolog.Logger) Store] *)
Definition NewInMemoryStore : inMem :=
  {| all := []; byChannel := ∅; byContainer := ∅; byBoth := ∅ |}.

(** [m[k]] on a map of slices: the nil slice when [k] is absent. *)
Definition index (m : gmap string Releases) (k : string) : Releases :=
  default [] (m !! k).

(** [fmt]'s rendering of a non-nil [*Release] under the verb [%s]: an
    ampersand and the fields in declaration order between braces. *)
Definition fmt_Release (r : Release) : string :=
  "&{" +:+ Container r +:+ " " +:+ ImagePath r +:+ " "
       +:+ ReleaseChannel r +:+ "}".

(** [fmt.Errorf("`<field>` not set on write for %s", r)] *)
Definition not_set (field : string) (r : Release) : error :=
  Some ("`" +:+ field +:+ "` not set on write for " +:+ fmt_Release r).

(** [func (im *inMem) Query(r *Release) Releases] *)
Definition Query (r : ptr Release) : M inMem Releases :=
  r ← deref r;
  im ← get;
  (* first check by release key *)
  if decide (Container r ≠ "" ∧ ReleaseChannel r ≠ "") then
    match byBoth im !! ToKey r with
    | Some out => ret [out]
    | None => ret []
    end
  (* then check by container *)
  else if decide (Container r ≠ "") then
    match byContainer im !! Container r with
    | Some out => ret out
    | None => ret []
    end
  (* finally check by channel *)
  else if decide (ReleaseChannel r ≠ "") then
    match byChannel im !! ReleaseChannel r with
    | Some out => ret out
    | None => ret []
    end
  else ret (all im).

(** [func (im *inMem) Write(r *Release) error] *)
Definition Write (r : ptr Release) : M inMem error :=
  r ← deref r;
  (* sanity check the input *)
  if decide (Container r = "") then ret (not_set "container" r)
  else if decide (ReleaseChannel r = "") then ret (not_set "releaseChannel" r)
  else if decide (ImagePath r = "") then ret (not_set "image_path" r)
  else
    (* append the all store *)
    modify (fun im => set_all (all im ++ [r]) im) ;;
    (* append the container store *)
    modify (fun im =>
      set_byContainer
        (<[Container r := index (byContainer im) (Container r) ++ [r]]>
           (byContainer im)) im) ;;
    (* append the release-channel store *)
    modify (fun im =>
      set_byChannel
        (<[ReleaseChannel r := index (byChannel im) (ReleaseChannel r) ++ [r]]>
           (byChannel im)) im) ;;
    (* append the both store *)
    modify (fun im => set_byBoth (<[ToKey r := r]> (byBoth im)) im) ;;
    ret None.

End db.

Import db.

(** ** Package [server] *)

Module server.

(** [time.Time], as the instant it denotes: nanoseconds counted from the
    instant of the zero value. A modification time carries no monotonic
    reading, so [After] compares instants. *)
Definition Time : Type := Z.
Definition zero_Time : Time := 0%Z.
Definition After (t u : Time) : bool := (u <? t)%Z.

(** [os.FileInfo], by the one method the server calls. *)
Record FileInfo : Type := mkFileInfo { ModTime : Time }.

(** What the operating system answers at the time of a call: [os.Stat]
    and [os.ReadFile] on a path. The two are independent, as the file may
    change between the calls. *)
Record FileSystem : Type := mkFileSystem {
  os_Stat : string -> res FileInfo;
  os_ReadFile : string -> res (list Byte.byte)
}.

(** [encoding/json] is outside the repository: [json.Unmarshal] into
    [struct{ Releases db.Releases }] is a parameter. It answers with an
    error, or with the decoded slice of [*Release], where a JSON [null]
    element is a nil pointer. *)
Definition Decoder : Type := list Byte.byte -> res (list (ptr Release)).

(** [type srv struct], without the logger and the close channel. *)
Record srv : Type := mkSrv {
  db : inMem;
  dbFile : string;
  lastMod : Time
}.

Definition set_db (v : inMem) (s : srv) : srv :=
  mkSrv v (dbFile s) (lastMod s).
Definition set_lastMod (v : Time) (s : srv) : srv :=
  mkSrv (db s) (dbFile s) v.

(** A method call [s.db.m(...)]. *)
Definition s_db {A} (m : M inMem A) : M srv A := on_field db set_db m.

(** [c.JSON(status, body)] *)
Inductive Body : Type :=
| JSON_Releases (resp : Releases)
| JSON_string (text : string)
| JSON_map (key value : string).

Record Response : Type := mkResponse { status : nat; body : Body }.

Definition StatusOK : nat := 200.
Definition StatusNotFound : nat := 404.
Definition StatusInternalServerError : nat := 500.

(** What the watcher goroutine's [select] receives. *)
Inductive Event : Type :=
| ticker_C (fs : FileSystem)
| ctx_Done.

(** Where the watcher goroutine is once the events are consumed. *)
Inductive Watcher : Type :=
| Selecting
| Stopped.

Section WithDecoder.

Variable json_Unmarshal : Decoder.

(** [func (s *srv) loadDatabase(data []byte) error] *)
Definition loadDatabase (data : list Byte.byte) : M srv error :=
  (* Create new database instance *)
  modify (set_db NewInMemoryStore) ;;
  (* marshal the test-data into a []db.Release *)
  match json_Unmarshal data with
  | Err err => ret (Some err)
  | Ok releasesIn =>
      (* load the test-data into our DB *)
      range releasesIn (fun r =>
        err ← s_db (Write r);
        (* if err != nil: an error event is built and never sent *)
        match err with
        | Some _ => ret tt
        | None => ret tt
        end) ;;
      ret None
  end.

(** [func New(data []byte, dbFile string, gl *zerolog.Logger) (Server, error)].
    The outcome's state is the constructed [srv]; when the error is not
    nil the caller receives no server. *)
Definition New (fs : FileSystem) (data : list Byte.byte) (file : string)
    : Outcome srv error :=
  let lastMod :=
    match os_Stat fs file with
    | Ok stat => ModTime stat
    | Err _ => zero_Time
    end in
  loadDatabase data
    {| db := NewInMemoryStore; dbFile := file; lastMod := lastMod |}.

(** [func (s *srv) ReloadDatabase() error] *)
Definition ReloadDatabase (fs : FileSystem) : M srv error :=
  s ← get;
  (* Check if file has been modified *)
  match os_Stat fs (dbFile s) with
  | Err err => ret (Some err)
  | Ok stat =>
      (* If file hasn't changed, skip reload *)
      if negb (After (ModTime stat) (lastMod s)) then ret None
      else
        (* Read the file *)
        match os_ReadFile fs (dbFile s) with
        | Err err => ret (Some err)
        | Ok data =>
            (* Load the new data *)
            err ← loadDatabase data;
            match err with
            | Some err => ret (Some err)
            | None =>
                (* Update last modified time *)
                modify (fun s => set_lastMod (ModTime stat) s) ;;
                ret None
            end
        end
  end.

(** The goroutine of [startFileWatcher], run on the events its [select]
    receives, oldest first. With no event left it is blocked in the
    [select]. *)
Fixpoint fileWatcher (events : list Event) : M srv Watcher :=
  match events with
  | [] => ret Selecting
  | ticker_C fs :: events' =>
      err ← ReloadDatabase fs;
      (* if err != nil: the error is logged; the loop goes on *)
      match err with
      | Some _ => fileWatcher events'
      | None => fileWatcher events'
      end
  | ctx_Done :: _ => ret Stopped
  end.

(** [func (s *srv) queryHandler(c echo.Context) error], on the two query
    parameters of the request. *)
Definition queryHandler (container releaseChannel : string)
    : M srv Response :=
  let query := Some {| Container := container; ImagePath := "";
                       ReleaseChannel := releaseChannel |} in
  resp ← s_db (Query query);
  if decide (0 < length resp)%nat then
    ret (mkResponse StatusOK (JSON_Releases resp))
  else ret (mkResponse StatusNotFound (JSON_Releases resp)).

(** [func (s *srv) readyHandler(c echo.Context) error] *)
Definition readyHandler : M srv Response :=
  ret (mkResponse StatusOK (JSON_string "{200: ready}")).

(** [func (s *srv) healthHandler(c echo.Context) error] *)
Definition healthHandler : M srv Response :=
  ret (mkResponse StatusOK (JSON_string "{200: healthy}")).

(** [func (s *srv) reloadHandler(c echo.Context) error] *)
Definition reloadHandler (fs : FileSystem) : M srv Response :=
  err ← ReloadDatabase fs;
  match err with
  | Some err =>
      ret (mkResponse StatusInternalServerError (JSON_map "error" err))
  | None => ret (mkResponse StatusOK (JSON_map "status" "reloaded"))
  end.

End WithDecoder.

End server.

Import server.

(** ** Package [main] *)

Module cmd.

(** [const inFile] and [var Version] *)
Definition inFile : string := "db/db.json".
Definition Version : string := "dev".

(** Where [main] is once its start-up is over: it has called [os.Exit]
    with a code, or it runs the server it constructed (the call of
    [srv.Run] in the error group), or it is unwinding from a panic raised
    while the server was being constructed. *)
Inductive Process : Type :=
| Exit (code : nat)
| Serving (s : srv)
| Panicking (s : srv).

(** The status the process ends with, when it ends at start-up: the code
    given to [os.Exit], or 2 when a panic unwinds [main], which is the status
    the Go runtime exits with on a panic that nothing recovers. *)
Definition exit_status (p : Process) : option nat :=
  match p with
  | Exit code => Some code
  | Panicking _ => Some 2
  | Serving _ => None
  end.

Section WithRuntime.

Variable json_Unmarshal : Decoder.

(** [os.Open] and [io.ReadAll], over the type of open files. *)
Context {File : Type}.
Variable os_Open : string -> res File.
Variable io_ReadAll : File -> res (list Byte.byte).

(** [func main()], up to the start of the server. *)
Definition main (fs : FileSystem) : Process :=
  (* Open our db *)
  match os_Open inFile with
  | Err _ => Exit 1
  | Ok db =>
      (* read in the data *)
      match io_ReadAll db with
      | Err _ => Exit 2
      | Ok bytes =>
          (* create the server *)
          match New json_Unmarshal fs bytes inFile with
          | Returns (Some _) _ => Exit 2
          | Returns None srv => Serving srv
          | Panics srv => Panicking srv
          end
      end
  end.

End WithRuntime.

End cmd.

(** * Vocabulary of the properties *)

(** A record passes the validation of [Write] when its three fields are set. *)
Definition passes (r : Release) : Prop :=
  Container r ≠ "" ∧ ReleaseChannel r ≠ "" ∧ ImagePath r ≠ "".

#[global] Instance passes_dec (r : Release) : Decision (passes r).
Proof. unfold passes. apply _. Defined.

(** The receiver after the four assignments of a successful [Write]. *)
Definition stored (r : Release) (im : inMem) : inMem :=
  {| all := all im ++ [r];
     byChannel :=
       <[ReleaseChannel r := index (byChannel im) (ReleaseChannel r) ++ [r]]>
         (byChannel im);
     byContainer :=
       <[Container r := index (byContainer im) (Container r) ++ [r]]>
         (byContainer im);
     byBoth := <[ToKey r := r]> (byBoth im) |}.

(** The answer of [Query], read off the store. *)
Definition answer (im : inMem) (q : Release) : Releases :=
  if decide (Container q ≠ "" ∧ ReleaseChannel q ≠ "") then
    option_list (byBoth im !! ToKey q)
  else if decide (Container q ≠ "") then index (byContainer im) (Container q)
  else if decide (ReleaseChannel q ≠ "") then
    index (byChannel im) (ReleaseChannel q)
  else all im.

(** [written rs im]: the store [im] was built from a new store by the
    successful writes of [rs], in that order. *)
Inductive written : list Release → inMem → Prop :=
| written_new : written [] NewInMemoryStore
| written_Write rs im r im' :
    written rs im →
    Write (Some r) im = Returns None im' →
    written (rs ++ [r]) im'.

(** A store is self-consistent when its three indices are the ones derived
    from its full sequence: each list index holds the releases of that
    container or channel in the order of the full sequence, and the composite
    index holds, for each key, the last release with that key. *)
Definition consistent (im : inMem) : Prop :=
  (∀ c, index (byContainer im) c = filter (λ r, Container r = c) (all im)) ∧
  (∀ ch, index (byChannel im) ch
         = filter (λ r, ReleaseChannel r = ch) (all im)) ∧
  (∀ k, byBoth im !! k = last (filter (λ r, ToKey r = k) (all im))).

(** The store that holds the records of [rs] that pass validation. *)
Definition generation (rs : list Release) : inMem :=
  foldl (λ im r, stored r im) NewInMemoryStore (filter passes rs).

(** * A load, statement by statement

    The assignments that one call of [loadDatabase] executes, those of
    [Write] included, in program order. Executing a prefix of them gives the
    server as that call has left it at that point, which is what any other
    goroutine reading [s.db] then finds: the server has no lock and no atomic
    reference. Nothing here describes two calls that overlap. *)

Inductive Stmt : Type :=
| new_store                          (* s.db = db.NewInMemoryStore(s.ll) *)
| append_all (r : Release)           (* im.all = append(im.all, r) *)
| append_byContainer (r : Release)   (* im.byContainer[..] = append(.., r) *)
| append_byChannel (r : Release)     (* im.byChannel[..] = append(.., r) *)
| assign_byBoth (r : Release).       (* im.byBoth[r.ToKey()] = r *)

Definition exec (st : Stmt) (s : srv) : srv :=
  match st with
  | new_store => set_db NewInMemoryStore s
  | append_all r => set_db (set_all (all (db s) ++ [r]) (db s)) s
  | append_byContainer r =>
      set_db
        (set_byContainer
           (<[Container r := index (byContainer (db s)) (Container r) ++ [r]]>
              (byContainer (db s))) (db s)) s
  | append_byChannel r =>
      set_db
        (set_byChannel
           (<[ReleaseChannel r :=
                index (byChannel (db s)) (ReleaseChannel r) ++ [r]]>
              (byChannel (db s))) (db s)) s
  | assign_byBoth r =>
      set_db (set_byBoth (<[ToKey r := r]> (byBoth (db s))) (db s)) s
  end.

Definition run_stmts (sts : list Stmt) (s : srv) : srv :=
  foldl (λ s st, exec st s) s sts.

(** The assignments of one call of [Write]: none when validation fails. *)
Definition Write_stmts (r : Release) : list Stmt :=
  if decide (passes r) then
    [append_all r; append_byContainer r; append_byChannel r; assign_byBoth r]
  else [].

(** The assignments of the loop of [loadDatabase]; a nil record panics and
    ends the goroutine's load there. *)
Fixpoint range_stmts (rs : list (ptr Release)) : list Stmt :=
  match rs with
  | [] => []
  | Some r :: rs' => Write_stmts r ++ range_stmts rs'
  | None :: _ => []
  end.

Definition loadDatabase_stmts (json_Unmarshal : Decoder) (data : list byte)
    : list Stmt :=
  new_store ::
  match json_Unmarshal data with
  | Err _ => []
  | Ok releasesIn => range_stmts releasesIn
  end.

(** The state a call ends in, returning or panicking. *)
Definition final_state {S A} (o : Outcome S A) : S :=
  match o with
  | Returns _ s => s
  | Panics s => s
  end.

(** * Further vocabulary *)

(** A release matches a filter when it agrees with each field of the filter
    that is set. *)
Definition matches (container releaseChannel : string) (r : Release) : Prop :=
  (container = "" ∨ Container r = container) ∧
  (releaseChannel = "" ∨ ReleaseChannel r = releaseChannel).

(** The records of a decoded slice that come before its first nil pointer:
    all of them when there is none. *)
Fixpoint before_nil (ps : list (ptr Release)) : list Release :=
  match ps with
  | Some r :: ps' => r :: before_nil ps'
  | _ => []
  end.

(** Whether a decoded slice holds a nil pointer. *)
Fixpoint has_nil (ps : list (ptr Release)) : bool :=
  match ps with
  | [] => false
  | Some _ :: ps' => has_nil ps'
  | None :: _ => true
  end.

(** Whether a string holds the separator of [ReleaseKey.String]. *)
Fixpoint has_slash (t : string) : bool :=
  match t with
  | EmptyString => false
  | String a t' => if Ascii.eqb a "/"%char then true else has_slash t'
  end.

(** A store is sound when it is self-consistent and every release of its
    full sequence has its three fields set. *)
Definition sound (im : inMem) : Prop :=
  consistent im ∧ Forall passes (all im).

(** * Sample data

    The data of the examples below: the two releases of the scenario of the
    specification, a record with no container, and backing files. *)

Module sample.

Definition app_dev : Release := mkRelease "app" "img:dev" "dev".
Definition app_prod : Release := mkRelease "app" "img:prod" "prod".
Definition nameless : Release := mkRelease "" "img:lost" "dev".

(** JSON text, built from bytes: [x22] is the double quote. *)
Definition text (t : string) : list byte := list_byte_of_string t.
Definition quoted (t : string) : list byte := [x22] ++ text t ++ [x22].
Definition member (name value : string) : list byte :=
  quoted name ++ text ":" ++ quoted value.
Definition object (r : Release) : list byte :=
  text "{" ++ member "container" (Container r) ++ text ","
    ++ member "releaseChannel" (ReleaseChannel r) ++ text ","
    ++ member "imagePath" (ImagePath r) ++ text "}".
Fixpoint objects (rs : list Release) : list byte :=
  match rs with
  | [] => []
  | [r] => object r
  | r :: rs' => object r ++ text "," ++ objects rs'
  end.
Definition document (rs : list Release) : list byte :=
  text "{" ++ quoted "releases" ++ text ":[" ++ objects rs ++ text "]}".

(** A document cut short after its first byte. *)
Definition truncated : list byte := text "{".

#[global] Instance byte_eq_dec : EqDecision byte := Byte.byte_eq_dec.

(** The answers of [json.Unmarshal] on the blobs of the examples: the
    documents of one, two and three records decode to these records, and
    the truncated document is a syntax error. The table stands for the
    decoder on these blobs only; no example reads it anywhere else. *)
Definition json_Unmarshal : Decoder := λ data,
  if decide (data = truncated) then Err "unexpected end of JSON input"
  else if decide (data = document [app_prod]) then Ok [Some app_prod]
  else if decide (data = document [app_dev; app_prod]) then
    Ok [Some app_dev; Some app_prod]
  else if decide (data = document [app_dev; nameless; app_prod]) then
    Ok [Some app_dev; Some nameless; Some app_prod]
  else Err "blob outside the table".

Definition path : string := "db/db.json".

(** A backing file with modification time [mtime] and content [data]. *)
Definition file (mtime : Time) (data : list byte) : FileSystem :=
  {| os_Stat := λ name,
       if decide (name = path) then Ok (mkFileInfo mtime)
       else Err "stat: no such file or directory";
     os_ReadFile := λ name,
       if decide (name = path) then Ok data
       else Err "open: no such file or directory" |}.

(** No backing file. *)
Definition missing : FileSystem :=
  {| os_Stat := λ _, Err "stat: no such file or directory";
     os_ReadFile := λ _, Err "open: no such file or directory" |}.

(** A backing file that can be stated and not read. *)
Definition unreadable (mtime : Time) : FileSystem :=
  {| os_Stat := λ _, Ok (mkFileInfo mtime);
     os_ReadFile := λ _, Err "open: permission denied" |}.

(** The store of the scenario: [app_dev] and [app_prod], loaded in that
    order. *)
Definition two : inMem := generation [app_dev; app_prod].

(** A server that loaded [app_dev] from a file last modified at 100. *)
Definition serving : srv :=
  {| db := stored app_dev NewInMemoryStore; dbFile := path;
     lastMod := 100%Z |}.

(** A document whose second element is [null], and the decoder's table
    extended by it: the element decodes to a nil pointer. *)
Definition with_null : list byte :=
  text "{" ++ quoted "releases" ++ text ":[" ++ object app_dev
    ++ text ",null," ++ object app_prod ++ text "]}".

Definition json_Unmarshal_null : Decoder := λ data,
  if decide (data = with_null) then Ok [Some app_dev; None; Some app_prod]
  else json_Unmarshal data.

(** The file of [main] on disk: opening yields its content as the handle,
    and reading the handle yields the content. *)
Definition os_Open (data : list byte) : string → res (list byte) := λ name,
  if decide (name = path) then Ok data
  else Err "open: no such file or directory".

Definition io_ReadAll : list byte → res (list byte) := λ handle, Ok handle.

End sample.

(** * Properties of the store *)

(** Unfolding the monad's operations down to the outcome of a run. *)
Ltac run :=
  repeat progress
    (unfold mbind, mret, M_bind, M_ret, bind, ret, modify, get, panic, deref;
     cbn beta iota).

Tactic Notation "run" "in" hyp(H) :=
  repeat progress
    (unfold mbind, mret, M_bind, M_ret, bind, ret, modify, get, panic, deref
       in H;
     cbn beta iota in H).

(** ** What a call of [Write] and of [Query] amounts to *)

Lemma Write_passes (r : Release) (im : inMem) :
  passes r → Write (Some r) im = Returns None (stored r im).
Proof.
  intros (Hc & Hch & Hip). unfold Write. run.
  repeat (case_decide; [congruence |]). reflexivity.
Qed.

Lemma Write_fails (r : Release) (im : inMem) :
  ¬ passes r → ∃ msg, Write (Some r) im = Returns (Some msg) im.
Proof.
  intros Hnot. unfold Write. run.
  repeat (case_decide; [eexists; reflexivity |]).
  destruct Hnot. repeat split; assumption.
Qed.

Lemma Write_success_inv (r : Release) (im im' : inMem) :
  Write (Some r) im = Returns None im' → passes r ∧ im' = stored r im.
Proof.
  intros Hw. destruct (decide (passes r)) as [Hp | Hp].
  - rewrite (Write_passes _ _ Hp) in Hw. split; [assumption | congruence].
  - destruct (Write_fails r im Hp) as [msg Hmsg]. congruence.
Qed.

Lemma Query_answer (im : inMem) (q : Release) :
  Query (Some q) im = Returns (answer im q) im.
Proof.
  unfold Query, answer, index. run.
  repeat case_decide;
    try (destruct (byBoth im !! ToKey q));
    try (destruct (byContainer im !! Container q));
    try (destruct (byChannel im !! ReleaseChannel q));
    reflexivity.
Qed.

(** ** Self-consistency of the indices *)

Lemma consistent_new : consistent NewInMemoryStore.
Proof.
  repeat split; intros; unfold index; cbn; rewrite ?lookup_empty; reflexivity.
Qed.

Lemma index_insert (m : gmap string Releases) (k k' : string) (v : Releases) :
  index (<[k := v]> m) k' = if decide (k = k') then v else index m k'.
Proof.
  unfold index. rewrite lookup_insert. case_decide; reflexivity.
Qed.

Lemma filter_snoc {A} (P : A → Prop) `{∀ x, Decision (P x)} (l : list A) (x : A) :
  filter P (l ++ [x]) = if decide (P x) then filter P l ++ [x] else filter P l.
Proof.
  rewrite filter_app. cbn. unfold filter at 2. cbn.
  case_decide; [reflexivity | apply app_nil_r].
Qed.

Lemma consistent_stored (r : Release) (im : inMem) :
  consistent im → consistent (stored r im).
Proof.
  intros (Hc & Hch & Hk).
  repeat split; unfold stored; cbn [all byContainer byChannel byBoth].
  - intros c. rewrite index_insert, filter_snoc.
    case_decide; subst; rewrite ?Hc; reflexivity.
  - intros ch. rewrite index_insert, filter_snoc.
    case_decide; subst; rewrite ?Hch; reflexivity.
  - intros k. rewrite lookup_insert, filter_snoc.
    case_decide.
    + symmetry. apply last_snoc.
    + apply Hk.
Qed.

Lemma written_all_consistent (rs : list Release) (im : inMem) :
  written rs im → all im = rs ∧ consistent im.
Proof.
  induction 1 as [| rs im r im' Hw [Hall Hcons] Hwrite].
  - split; [reflexivity | apply consistent_new].
  - apply Write_success_inv in Hwrite as [_ ->]. split.
    + cbn. rewrite Hall. reflexivity.
    + apply consistent_stored, Hcons.
Qed.

(** ** Write *)

(** C7. A candidate release in which container, releaseChannel or imagePath
    is the empty string is refused: [Write] returns the error that names an
    empty field of the release, and the receiver is left as it was, so the
    length of the full sequence and the three index mappings are the same
    before and after the call. *)
Theorem Write_rejects_empty_field (r : Release) (im : inMem) :
  Container r = "" ∨ ReleaseChannel r = "" ∨ ImagePath r = "" →
  ∃ (field : string) (im' : inMem),
    (field = "container" ∧ Container r = ""
     ∨ field = "releaseChannel" ∧ ReleaseChannel r = ""
     ∨ field = "image_path" ∧ ImagePath r = "") ∧
    Write (Some r) im
    = Returns
        (Some ("`" +:+ field +:+ "` not set on write for " +:+ fmt_Release r))
        im' ∧
    length (all im') = length (all im) ∧
    byChannel im' = byChannel im ∧
    byContainer im' = byContainer im ∧
    byBoth im' = byBoth im ∧
    im' = im.
Proof.
  intros Hempty. unfold Write. run.
  destruct (decide (Container r = "")) as [Hc | Hc].
  { exists "container", im. repeat split; auto. }
  destruct (decide (ReleaseChannel r = "")) as [Hch | Hch].
  { exists "releaseChannel", im. repeat split; auto. }
  destruct (decide (ImagePath r = "")) as [Hip | Hip].
  { exists "image_path", im. repeat split; auto. }
  exfalso. destruct Hempty as [? | [? | ?]]; contradiction.
Qed.

Lemma Write_rejects_empty_field_witness :
  ∃ (field : string) (im' : inMem),
    (field = "container" ∧ Container (mkRelease "app" "" "dev") = ""
     ∨ field = "releaseChannel" ∧ ReleaseChannel (mkRelease "app" "" "dev") = ""
     ∨ field = "image_path" ∧ ImagePath (mkRelease "app" "" "dev") = "") ∧
    Write (Some (mkRelease "app" "" "dev"))
      (stored (mkRelease "app" "img:prod" "prod") NewInMemoryStore)
    = Returns
        (Some ("`" +:+ field +:+ "` not set on write for "
               +:+ fmt_Release (mkRelease "app" "" "dev")))
        im' ∧
    length (all im') = 1 ∧
    byChannel im'
    = byChannel (stored (mkRelease "app" "img:prod" "prod") NewInMemoryStore) ∧
    byContainer im'
    = byContainer (stored (mkRelease "app" "img:prod" "prod") NewInMemoryStore) ∧
    byBoth im'
    = byBoth (stored (mkRelease "app" "img:prod" "prod") NewInMemoryStore) ∧
    im' = stored (mkRelease "app" "img:prod" "prod") NewInMemoryStore.
Proof.
  apply (Write_rejects_empty_field (mkRelease "app" "" "dev")
           (stored (mkRelease "app" "img:prod" "prod") NewInMemoryStore)).
  right. right. reflexivity.
Defined.

(** C2. Two successful writes of releases [r1] then [r2] with the same
    composite key: afterwards the query with both fields set to that key
    answers exactly [[r2]], while the full sequence and the lists of the
    container and of the channel have grown by [r1] and then [r2], both
    retained. *)
Theorem Write_same_key_last_wins (im im1 im2 : inMem) (r1 r2 : Release)
    (ip : string) :
  Write (Some r1) im = Returns None im1 →
  Write (Some r2) im1 = Returns None im2 →
  ToKey r1 = ToKey r2 →
  Query (Some (mkRelease (Container r2) ip (ReleaseChannel r2))) im2
  = Returns [r2] im2 ∧
  all im2 = all im ++ [r1; r2] ∧
  index (byContainer im2) (Container r2)
  = index (byContainer im) (Container r2) ++ [r1; r2] ∧
  index (byChannel im2) (ReleaseChannel r2)
  = index (byChannel im) (ReleaseChannel r2) ++ [r1; r2].
Proof.
  intros H1 H2 Hkey.
  apply Write_success_inv in H1 as [Hp1 ->].
  apply Write_success_inv in H2 as [(Hc & Hch & _) ->].
  assert (Container r1 = Container r2) as Ec by (injection Hkey; auto).
  assert (ReleaseChannel r1 = ReleaseChannel r2) as Ech
    by (injection Hkey; auto).
  repeat split.
  - rewrite Query_answer. f_equal. unfold answer, stored; cbn.
    rewrite decide_True by (split; assumption).
    change (mkReleaseKey (Container r2) (ReleaseChannel r2)) with (ToKey r2).
    rewrite lookup_insert_eq. reflexivity.
  - cbn. rewrite <- app_assoc. reflexivity.
  - unfold stored; cbn. rewrite !index_insert, Ec.
    rewrite !decide_True by reflexivity. rewrite <- app_assoc. reflexivity.
  - unfold stored; cbn. rewrite !index_insert, Ech.
    rewrite !decide_True by reflexivity. rewrite <- app_assoc. reflexivity.
Qed.

Lemma Write_same_key_last_wins_witness :
  Query (Some (mkRelease "app" "" "dev"))
    (stored (mkRelease "app" "img:2" "dev")
       (stored (mkRelease "app" "img:1" "dev") NewInMemoryStore))
  = Returns [mkRelease "app" "img:2" "dev"]
      (stored (mkRelease "app" "img:2" "dev")
         (stored (mkRelease "app" "img:1" "dev") NewInMemoryStore)) ∧
  all (stored (mkRelease "app" "img:2" "dev")
         (stored (mkRelease "app" "img:1" "dev") NewInMemoryStore))
  = all NewInMemoryStore
    ++ [mkRelease "app" "img:1" "dev"; mkRelease "app" "img:2" "dev"] ∧
  index (byContainer (stored (mkRelease "app" "img:2" "dev")
         (stored (mkRelease "app" "img:1" "dev") NewInMemoryStore))) "app"
  = index (byContainer NewInMemoryStore) "app"
    ++ [mkRelease "app" "img:1" "dev"; mkRelease "app" "img:2" "dev"] ∧
  index (byChannel (stored (mkRelease "app" "img:2" "dev")
         (stored (mkRelease "app" "img:1" "dev") NewInMemoryStore))) "dev"
  = index (byChannel NewInMemoryStore) "dev"
    ++ [mkRelease "app" "img:1" "dev"; mkRelease "app" "img:2" "dev"].
Proof.
  apply (Write_same_key_last_wins NewInMemoryStore
           (stored (mkRelease "app" "img:1" "dev") NewInMemoryStore)
           (stored (mkRelease "app" "img:2" "dev")
              (stored (mkRelease "app" "img:1" "dev") NewInMemoryStore))
           (mkRelease "app" "img:1" "dev") (mkRelease "app" "img:2" "dev") "").
  - vm_compute. reflexivity.
  - vm_compute. reflexivity.
  - reflexivity.
Defined.

(** ** Query *)

(** C3. [Query] dispatches in a fixed order of precedence. For a container
    [c] and a channel [ch] that are set: with both, it is the lookup of the
    composite key, of at most one element; with the container alone, the list
    of that container; with the channel alone, the list of that channel; with
    neither, the full sequence. Where the first three find no entry the answer
    is the empty sequence. It always returns, and never panics. *)
Theorem Query_precedence (im : inMem) (c ch ip : string) :
  c ≠ "" → ch ≠ "" →
  (Query (Some (mkRelease c ip ch)) im
   = Returns (option_list (byBoth im !! mkReleaseKey c ch)) im ∧
   (length (option_list (byBoth im !! mkReleaseKey c ch)) ≤ 1)%nat ∧
   (byBoth im !! mkReleaseKey c ch = None →
    Query (Some (mkRelease c ip ch)) im = Returns [] im)) ∧
  (Query (Some (mkRelease c ip "")) im
   = Returns (default [] (byContainer im !! c)) im ∧
   (byContainer im !! c = None →
    Query (Some (mkRelease c ip "")) im = Returns [] im)) ∧
  (Query (Some (mkRelease "" ip ch)) im
   = Returns (default [] (byChannel im !! ch)) im ∧
   (byChannel im !! ch = None →
    Query (Some (mkRelease "" ip ch)) im = Returns [] im)) ∧
  Query (Some (mkRelease "" ip "")) im = Returns (all im) im.
Proof.
  intros Hc Hch. rewrite !Query_answer. unfold answer, index, ToKey. cbn.
  rewrite decide_True by (split; assumption).
  rewrite (decide_False (P := c ≠ "" ∧ "" ≠ "")) by (intros [_ ?]; congruence).
  rewrite (decide_True (P := c ≠ "")) by assumption.
  rewrite (decide_False (P := "" ≠ "" ∧ ch ≠ "")) by (intros [? _]; congruence).
  rewrite (decide_False (P := "" ≠ "" ∧ "" ≠ "")) by (intros [? _]; congruence).
  rewrite (decide_False (P := "" ≠ "")) by congruence.
  rewrite (decide_True (P := ch ≠ "")) by assumption.
  repeat split.
  - destruct (byBoth im !! mkReleaseKey c ch); cbn; lia.
  - intros ->. reflexivity.
  - intros ->. reflexivity.
  - intros ->. reflexivity.
Qed.

(** C10. [Query] returns for every store and every filter, with no panic
    and no error, and leaves the receiver as it was: the full sequence and
    the three index mappings after the call are those before it. Hence the
    same query asked twice of one generation has the same answer twice. *)
Theorem Query_leaves_store (im : inMem) (q : Release) :
  ∃ resp : Releases,
    Query (Some q) im = Returns resp im ∧
    (a ← Query (Some q); b ← Query (Some q); mret (a, b)) im
    = Returns (resp, resp) im.
Proof.
  exists (answer im q). split.
  - apply Query_answer.
  - run. rewrite !Query_answer. reflexivity.
Qed.

(** C8. On a store built by successful writes of [rs], the query with only
    the container set to [c] answers the releases of [rs] whose container is
    [c], all of them and no other, in the order they were written; and the
    query with only the channel set does the same for the channel. *)
Theorem Query_partial_key (rs : list Release) (im : inMem) (c ip : string) :
  written rs im → c ≠ "" →
  Query (Some (mkRelease c ip "")) im
  = Returns (filter (λ r, Container r = c) rs) im ∧
  Query (Some (mkRelease "" ip c)) im
  = Returns (filter (λ r, ReleaseChannel r = c) rs) im.
Proof.
  intros Hw Hc.
  destruct (written_all_consistent _ _ Hw) as [Hall (Hcont & Hchan & _)].
  rewrite !Query_answer. unfold answer. cbn.
  rewrite (decide_False (P := c ≠ "" ∧ "" ≠ "")) by (intros [_ ?]; congruence).
  rewrite (decide_True (P := c ≠ "")) by assumption.
  rewrite (decide_False (P := "" ≠ "" ∧ c ≠ "")) by (intros [? _]; congruence).
  rewrite (decide_False (P := "" ≠ "")) by congruence.
  rewrite (decide_True (P := c ≠ "")) by assumption.
  rewrite Hcont, Hchan, Hall. split; reflexivity.
Qed.

(** * Properties of loading and reloading *)

Section Loading.

Variable json_Unmarshal : Decoder.

(** The loop of [loadDatabase] over records none of which is nil. *)
Lemma range_Write (rs : list Release) (s : srv) :
  range (Some <$> rs)
    (λ r, err ← s_db (Write r);
          match err with Some _ => mret tt | None => mret tt end) s
  = Returns tt
      (set_db (foldl (λ im r, stored r im) (db s) (filter passes rs)) s).
Proof.
  revert s. induction rs as [| r rs IH]; intros s.
  - destruct s. reflexivity.
  - cbn [fmap list_fmap range]. unfold s_db, on_field. run.
    destruct (decide (passes r)) as [Hp | Hp].
    + rewrite (Write_passes _ _ Hp), IH, filter_cons_True by assumption.
      reflexivity.
    + destruct (Write_fails r (db s) Hp) as [msg ->].
      rewrite IH, filter_cons_False by assumption.
      destruct s. reflexivity.
Qed.

Lemma loadDatabase_Ok (data : list byte) (rs : list Release) (s : srv) :
  json_Unmarshal data = Ok (Some <$> rs) →
  loadDatabase json_Unmarshal data s
  = Returns None (set_db (generation rs) s).
Proof.
  intros Hdec. unfold loadDatabase. run. rewrite Hdec.
  pose proof (range_Write rs (set_db NewInMemoryStore s)) as Hrange.
  run in Hrange. rewrite Hrange. reflexivity.
Qed.

Lemma loadDatabase_Err (data : list byte) (e : string) (s : srv) :
  json_Unmarshal data = Err e →
  loadDatabase json_Unmarshal data s
  = Returns (Some e) (set_db NewInMemoryStore s).
Proof. intros Hdec. unfold loadDatabase. run. rewrite Hdec. reflexivity. Qed.

End Loading.

Lemma all_foldl_stored (l : list Release) (im : inMem) :
  all (foldl (λ im r, stored r im) im l) = all im ++ l.
Proof.
  revert im. induction l as [| r l IH]; intros im; cbn.
  - symmetry. apply app_nil_r.
  - rewrite IH. cbn. rewrite <- app_assoc. reflexivity.
Qed.

Lemma written_foldl_stored (l rs : list Release) (im : inMem) :
  Forall passes l → written rs im →
  written (rs ++ l) (foldl (λ im r, stored r im) im l).
Proof.
  intros Hl. revert rs im.
  induction Hl as [| r l Hr Hl IH]; intros rs im Hw; cbn.
  - rewrite app_nil_r. assumption.
  - replace (rs ++ r :: l) with ((rs ++ [r]) ++ l)
      by (rewrite <- app_assoc; reflexivity).
    apply IH. eapply written_Write; [eassumption |].
    apply Write_passes, Hr.
Qed.

Lemma written_generation (rs : list Release) :
  written (filter passes rs) (generation rs).
Proof.
  apply (written_foldl_stored (filter passes rs) [] NewInMemoryStore).
  - apply Forall_forall. intros r Hr.
    apply list_elem_of_filter in Hr. tauto.
  - constructor.
Qed.

Section Reloading.

Variable json_Unmarshal : Decoder.

(** [ReloadDatabase] when the file is newer than the watermark and can be
    read: the outcome is that of [loadDatabase], followed on success by the
    update of the watermark. *)
Lemma ReloadDatabase_newer (fs : FileSystem) (s : srv) (stat : FileInfo)
    (data : list byte) :
  os_Stat fs (dbFile s) = Ok stat →
  (lastMod s < ModTime stat)%Z →
  os_ReadFile fs (dbFile s) = Ok data →
  ReloadDatabase json_Unmarshal fs s
  = match loadDatabase json_Unmarshal data s with
    | Returns None s' => Returns None (set_lastMod (ModTime stat) s')
    | Returns (Some e) s' => Returns (Some e) s'
    | Panics s' => Panics s'
    end.
Proof.
  intros Hstat Hnewer Hread. unfold ReloadDatabase. run.
  rewrite Hstat. unfold After.
  rewrite (proj2 (Z.ltb_lt _ _) Hnewer). cbn [negb]. rewrite Hread.
  destruct (loadDatabase json_Unmarshal data s) as [[e |] s' | s'];
    reflexivity.
Qed.

(** X19. A blob that deserializes into records none of which is a nil
    pointer, of which some pass the validation of [Write] and the others
    fail it: the load returns no error,
    the full sequence of the resulting store is exactly the passing records,
    in their order, so their number, and every record is either loaded or
    skipped: a failing record does not stop the load of those after it. *)
Theorem loadDatabase_partial_success (data : list byte) (rs : list Release)
    (s : srv) :
  json_Unmarshal data = Ok (Some <$> rs) →
  ∃ s' : srv,
    loadDatabase json_Unmarshal data s = Returns None s' ∧
    all (db s') = filter passes rs ∧
    length (all (db s')) = length (filter passes rs) ∧
    length rs
    = (length (all (db s')) + length (filter (λ r, ¬ passes r) rs))%nat ∧
    consistent (db s').
Proof.
  intros Hdec. exists (set_db (generation rs) s).
  assert (all (generation rs) = filter passes rs) as Hall.
  { unfold generation. rewrite all_foldl_stored. reflexivity. }
  split; [apply loadDatabase_Ok, Hdec |]. cbn [db set_db].
  repeat split.
  - exact Hall.
  - rewrite Hall. reflexivity.
  - rewrite Hall. clear. induction rs as [| r rs IH]; [reflexivity |].
    destruct (decide (passes r)) as [Hp | Hp].
    + rewrite filter_cons_True, filter_cons_False by tauto. cbn. lia.
    + rewrite filter_cons_False, filter_cons_True by tauto. cbn. lia.
  - apply (written_all_consistent _ _ (written_generation rs)).
  - apply (written_all_consistent _ _ (written_generation rs)).
  - apply (written_all_consistent _ _ (written_generation rs)).
Qed.

(** C5. A reload attempt that finds the modification time of the backing
    file not strictly newer than the watermark succeeds and changes nothing:
    the server, its published store included, is as before, whatever the file
    holds, since the file is not read. This is so for the call itself, for
    the on-demand request and for a tick of the watcher. *)
Theorem ReloadDatabase_unchanged_file (fs : FileSystem) (s : srv)
    (stat : FileInfo) :
  os_Stat fs (dbFile s) = Ok stat →
  (ModTime stat ≤ lastMod s)%Z →
  ReloadDatabase json_Unmarshal fs s = Returns None s ∧
  reloadHandler json_Unmarshal fs s
  = Returns (mkResponse StatusOK (JSON_map "status" "reloaded")) s ∧
  ∀ events : list Event,
    fileWatcher json_Unmarshal (ticker_C fs :: events) s
    = fileWatcher json_Unmarshal events s.
Proof.
  intros Hstat Hold.
  assert (ReloadDatabase json_Unmarshal fs s = Returns None s) as Hreload.
  { unfold ReloadDatabase. run. rewrite Hstat. unfold After.
    rewrite (proj2 (Z.ltb_ge _ _) Hold). reflexivity. }
  repeat split.
  - exact Hreload.
  - unfold reloadHandler. run. rewrite Hreload. reflexivity.
  - intros events. cbn [fileWatcher]. run. rewrite Hreload. reflexivity.
Qed.

(** C6. A reload attempt in which stating the backing file fails, or in
    which the file is newer than the watermark and reading it fails, returns
    that error and changes nothing: the published store and the watermark are
    as before. The watcher goes on to the events that follow. *)
Theorem ReloadDatabase_io_error (fs : FileSystem) (s : srv) (e : string) :
  os_Stat fs (dbFile s) = Err e
  ∨ (∃ stat : FileInfo,
       os_Stat fs (dbFile s) = Ok stat ∧
       (lastMod s < ModTime stat)%Z ∧
       os_ReadFile fs (dbFile s) = Err e) →
  ReloadDatabase json_Unmarshal fs s = Returns (Some e) s ∧
  fileWatcher json_Unmarshal [ticker_C fs] s = Returns Selecting s ∧
  ∀ events : list Event,
    fileWatcher json_Unmarshal (ticker_C fs :: events) s
    = fileWatcher json_Unmarshal events s.
Proof.
  intros Hio.
  assert (ReloadDatabase json_Unmarshal fs s = Returns (Some e) s) as Hreload.
  { unfold ReloadDatabase. run.
    destruct Hio as [Hstat | (stat & Hstat & Hnewer & Hread)].
    - rewrite Hstat. reflexivity.
    - rewrite Hstat. unfold After.
      rewrite (proj2 (Z.ltb_lt _ _) Hnewer). cbn [negb].
      rewrite Hread. reflexivity. }
  repeat split.
  - exact Hreload.
  - cbn [fileWatcher]. run. rewrite Hreload. reflexivity.
  - intros events. cbn [fileWatcher]. run. rewrite Hreload. reflexivity.
Qed.

(** A reload whose file is newer, readable and malformed: the error is
    returned and the watermark kept, and the published store is the new,
    empty one that [loadDatabase] assigned before decoding. *)
Lemma ReloadDatabase_malformed (fs : FileSystem) (s : srv) (stat : FileInfo)
    (data : list byte) (e : string) :
  os_Stat fs (dbFile s) = Ok stat →
  (lastMod s < ModTime stat)%Z →
  os_ReadFile fs (dbFile s) = Ok data →
  json_Unmarshal data = Err e →
  ReloadDatabase json_Unmarshal fs s
  = Returns (Some e) (set_db NewInMemoryStore s).
Proof.
  intros Hstat Hnewer Hread Hdec.
  rewrite (ReloadDatabase_newer fs s stat data Hstat Hnewer Hread).
  rewrite (loadDatabase_Err _ _ _ _ Hdec). reflexivity.
Qed.

End Reloading.

(** * The statements of a load *)

Lemma set_db_db (s : srv) : set_db (db s) s = s.
Proof. destruct s. reflexivity. Qed.

(** The handler answers from the published store and leaves the server as
    it was. *)
Lemma queryHandler_answer (container releaseChannel : string) (s : srv) :
  queryHandler container releaseChannel s
  = Returns
      (let resp := answer (db s) (mkRelease container "" releaseChannel) in
       mkResponse
         (if decide (0 < length resp)%nat then StatusOK else StatusNotFound)
         (JSON_Releases resp))
      s.
Proof.
  unfold queryHandler, s_db, on_field. run.
  rewrite Query_answer, set_db_db. cbn zeta.
  case_decide; reflexivity.
Qed.

Lemma run_stmts_app (sts sts' : list Stmt) (s : srv) :
  run_stmts (sts ++ sts') s = run_stmts sts' (run_stmts sts s).
Proof. apply foldl_app. Qed.

Lemma run_Write_stmts (r : Release) (s : srv) :
  final_state (s_db (Write (Some r)) s) = run_stmts (Write_stmts r) s.
Proof.
  unfold s_db, on_field, Write_stmts.
  destruct (decide (passes r)) as [Hp | Hp].
  - rewrite (Write_passes _ _ Hp). reflexivity.
  - destruct (Write_fails r (db s) Hp) as [msg ->]. apply set_db_db.
Qed.

(** The statements of the loop are those the loop of [loadDatabase]
    executes: both end in the same state, whether the loop returns or
    panics on a nil record. *)
Lemma range_stmts_adequate (rs : list (ptr Release)) (s : srv) :
  final_state
    (range rs
       (λ r, err ← s_db (Write r);
             match err with Some _ => mret tt | None => mret tt end) s)
  = run_stmts (range_stmts rs) s.
Proof.
  revert s. induction rs as [| [r |] rs IH]; intros s.
  - reflexivity.
  - cbn [range range_stmts]. rewrite run_stmts_app, <- run_Write_stmts, <- IH.
    run. destruct (s_db (Write (Some r)) s) as [[e |] s' | s'] eqn:Hw;
      cbn [final_state]; try reflexivity.
    exfalso. unfold s_db, on_field in Hw.
    destruct (decide (passes r)) as [Hp | Hp].
    + rewrite (Write_passes _ _ Hp) in Hw. discriminate.
    + destruct (Write_fails r (db s) Hp) as [msg Hmsg].
      rewrite Hmsg in Hw. discriminate.
  - cbn [range range_stmts]. unfold s_db, on_field, Write. run.
    cbn. apply set_db_db.
Qed.

Lemma loadDatabase_stmts_adequate (json_Unmarshal : Decoder)
    (data : list byte) (s : srv) :
  final_state (loadDatabase json_Unmarshal data s)
  = run_stmts (loadDatabase_stmts json_Unmarshal data) s.
Proof.
  unfold loadDatabase, loadDatabase_stmts. run.
  destruct (json_Unmarshal data) as [rs | e]; [| reflexivity].
  change (run_stmts (new_store :: range_stmts rs) s)
    with (run_stmts (range_stmts rs) (set_db NewInMemoryStore s)).
  rewrite <- range_stmts_adequate. run.
  match goal with
  | |- final_state (match ?o with _ => _ end) = _ => destruct o; reflexivity
  end.
Qed.

(** * Examples on the sample data *)

Lemma Query_precedence_witness :
  "app" ≠ "" ∧ "prod" ≠ "" ∧
  Query (Some (mkRelease "app" "" "prod")) sample.two
  = Returns [sample.app_prod] sample.two ∧
  Query (Some (mkRelease "app" "" "")) sample.two
  = Returns [sample.app_dev; sample.app_prod] sample.two ∧
  Query (Some (mkRelease "" "" "prod")) sample.two
  = Returns [sample.app_prod] sample.two ∧
  Query (Some (mkRelease "" "" "")) sample.two
  = Returns [sample.app_dev; sample.app_prod] sample.two.
Proof.
  assert ("app" ≠ "") as Hc by discriminate.
  assert ("prod" ≠ "") as Hch by discriminate.
  destruct (Query_precedence sample.two "app" "prod" "" Hc Hch)
    as ((H1 & _ & _) & (H2 & _) & (H3 & _) & H4).
  split; [exact Hc |]. split; [exact Hch |].
  rewrite H1, H2, H3, H4. repeat split.
Defined.

Lemma Query_partial_key_witness :
  written [sample.app_dev; sample.app_prod] sample.two ∧ "app" ≠ "" ∧
  Query (Some (mkRelease "app" "" "")) sample.two
  = Returns [sample.app_dev; sample.app_prod] sample.two ∧
  Query (Some (mkRelease "" "" "app")) sample.two = Returns [] sample.two.
Proof.
  assert (written [sample.app_dev; sample.app_prod] sample.two) as Hw
    by exact (written_generation [sample.app_dev; sample.app_prod]).
  assert ("app" ≠ "") as Hc by discriminate.
  split; [exact Hw |]. split; [exact Hc |].
  exact (Query_partial_key _ _ "app" "" Hw Hc).
Defined.

Lemma loadDatabase_partial_success_witness :
  sample.json_Unmarshal
    (sample.document [sample.app_dev; sample.nameless; sample.app_prod])
  = Ok (Some <$> [sample.app_dev; sample.nameless; sample.app_prod]) ∧
  ∃ s' : srv,
    loadDatabase sample.json_Unmarshal
      (sample.document [sample.app_dev; sample.nameless; sample.app_prod])
      sample.serving
    = Returns None s' ∧
    all (db s') = [sample.app_dev; sample.app_prod] ∧
    length (all (db s')) = 2%nat.
Proof.
  assert (sample.json_Unmarshal
            (sample.document
               [sample.app_dev; sample.nameless; sample.app_prod])
          = Ok (Some <$> [sample.app_dev; sample.nameless; sample.app_prod]))
    as Hdec by (vm_compute; reflexivity).
  split; [exact Hdec |].
  destruct (loadDatabase_partial_success sample.json_Unmarshal _ _
              sample.serving Hdec) as (s' & Hload & Hall & Hlen & _).
  exists s'. split; [exact Hload |]. split; [exact Hall | exact Hlen].
Defined.

Lemma ReloadDatabase_unchanged_file_witness :
  let fs := sample.file 100%Z (sample.document [sample.app_dev; sample.app_prod]) in
  os_Stat fs (dbFile sample.serving) = Ok (mkFileInfo 100%Z) ∧
  (ModTime (mkFileInfo 100%Z) ≤ lastMod sample.serving)%Z ∧
  ReloadDatabase sample.json_Unmarshal fs sample.serving
  = Returns None sample.serving ∧
  reloadHandler sample.json_Unmarshal fs sample.serving
  = Returns (mkResponse StatusOK (JSON_map "status" "reloaded")) sample.serving ∧
  ∀ events : list Event,
    fileWatcher sample.json_Unmarshal (ticker_C fs :: events) sample.serving
    = fileWatcher sample.json_Unmarshal events sample.serving.
Proof.
  intros fs.
  assert (os_Stat fs (dbFile sample.serving) = Ok (mkFileInfo 100%Z)) as Hstat
    by reflexivity.
  assert (ModTime (mkFileInfo 100%Z) ≤ lastMod sample.serving)%Z as Hold
    by (cbn; lia).
  split; [exact Hstat |]. split; [exact Hold |].
  exact (ReloadDatabase_unchanged_file sample.json_Unmarshal fs
           sample.serving (mkFileInfo 100%Z) Hstat Hold).
Defined.

Lemma ReloadDatabase_io_error_witness :
  (os_Stat sample.missing (dbFile sample.serving)
   = Err "stat: no such file or directory" ∧
   ReloadDatabase sample.json_Unmarshal sample.missing sample.serving
   = Returns (Some "stat: no such file or directory") sample.serving) ∧
  (os_Stat (sample.unreadable 200%Z) (dbFile sample.serving)
   = Ok (mkFileInfo 200%Z) ∧
   (lastMod sample.serving < ModTime (mkFileInfo 200%Z))%Z ∧
   os_ReadFile (sample.unreadable 200%Z) (dbFile sample.serving)
   = Err "open: permission denied" ∧
   ReloadDatabase sample.json_Unmarshal (sample.unreadable 200%Z) sample.serving
   = Returns (Some "open: permission denied") sample.serving ∧
   fileWatcher sample.json_Unmarshal
     [ticker_C (sample.unreadable 200%Z); ticker_C sample.missing; ctx_Done]
     sample.serving
   = Returns Stopped sample.serving).
Proof.
  split.
  - split; [reflexivity |].
    apply (ReloadDatabase_io_error sample.json_Unmarshal sample.missing
             sample.serving "stat: no such file or directory").
    left. reflexivity.
  - assert (lastMod sample.serving < ModTime (mkFileInfo 200%Z))%Z as Hnewer
      by (cbn; lia).
    split; [reflexivity |]. split; [exact Hnewer |]. split; [reflexivity |].
    destruct (ReloadDatabase_io_error sample.json_Unmarshal
                (sample.unreadable 200%Z) sample.serving
                "open: permission denied") as (Hreload & _ & Hloop).
    { right. exists (mkFileInfo 200%Z). split; [reflexivity |]. split; [exact Hnewer | reflexivity]. }
    split; [exact Hreload |]. rewrite Hloop.
    destruct (ReloadDatabase_io_error sample.json_Unmarshal sample.missing
                sample.serving "stat: no such file or directory")
      as (_ & _ & Hloop').
    { left. reflexivity. }
    rewrite Hloop'. reflexivity.
Defined.

(** C1, on the code: a server that answers a query with [app_dev] reloads
    from a newer file that is not well-formed. The reload returns the
    decoder's error and keeps the watermark, and the published store is then
    empty: the same query is answered with no release. *)
Theorem ReloadDatabase_malformed_blanks_store :
  queryHandler "app" "" sample.serving
  = Returns (mkResponse StatusOK (JSON_Releases [sample.app_dev]))
      sample.serving ∧
  ReloadDatabase sample.json_Unmarshal (sample.file 200%Z sample.truncated)
    sample.serving
  = Returns (Some "unexpected end of JSON input")
      (set_db NewInMemoryStore sample.serving) ∧
  lastMod (set_db NewInMemoryStore sample.serving) = lastMod sample.serving ∧
  queryHandler "app" "" (set_db NewInMemoryStore sample.serving)
  = Returns (mkResponse StatusNotFound (JSON_Releases []))
      (set_db NewInMemoryStore sample.serving).
Proof.
  split; [vm_compute; reflexivity |].
  split; [| split; [reflexivity | vm_compute; reflexivity]].
  apply (ReloadDatabase_malformed sample.json_Unmarshal
           (sample.file 200%Z sample.truncated) sample.serving
           (mkFileInfo 200%Z) sample.truncated).
  - reflexivity.
  - cbn. lia.
  - reflexivity.
  - vm_compute. reflexivity.
Qed.

(** The scenario of the specification, through the handler: the store
    loaded with [app_dev] and [app_prod] answers the container [app] with
    both in load order, the pair [app], [prod] with [app_prod] alone, and a
    container it does not hold with an empty list and the not-found status. *)
Example scenario :
  let s := set_db sample.two sample.serving in
  queryHandler "app" "" s
  = Returns
      (mkResponse StatusOK (JSON_Releases [sample.app_dev; sample.app_prod]))
      s ∧
  queryHandler "app" "prod" s
  = Returns (mkResponse StatusOK (JSON_Releases [sample.app_prod])) s ∧
  queryHandler "missing" "" s
  = Returns (mkResponse StatusNotFound (JSON_Releases [])) s.
Proof. repeat split; vm_compute; reflexivity. Qed.

(** * Further properties of the store *)

Lemma sound_new : sound NewInMemoryStore.
Proof. split; [apply consistent_new | constructor]. Qed.

Lemma sound_stored (r : Release) (im : inMem) :
  passes r → sound im → sound (stored r im).
Proof.
  intros Hp [Hcons Hall]. split; [apply consistent_stored, Hcons |].
  cbn. apply Forall_app. split; [exact Hall |].
  constructor; [exact Hp | constructor].
Qed.

(** What [Write] does on any argument: it panics on nil with the receiver
    untouched, stores a release that passes, and leaves the receiver as it
    was otherwise. *)
Lemma Write_final_state (r : ptr Release) (im : inMem) :
  final_state (Write r im)
  = match r with
    | Some r0 => if decide (passes r0) then stored r0 im else im
    | None => im
    end.
Proof.
  destruct r as [r0 |]; [| reflexivity].
  destruct (decide (passes r0)) as [Hp | Hp].
  - rewrite (Write_passes _ _ Hp). reflexivity.
  - destruct (Write_fails r0 im Hp) as [msg ->]. reflexivity.
Qed.

(** X1. [Write] keeps the store sound whatever it is given and however it
    ends: after the call the three indices are still the ones derived from
    the full sequence, and every stored release has its three fields set. *)
Theorem Write_keeps_sound (r : ptr Release) (im : inMem) :
  sound im → sound (final_state (Write r im)).
Proof.
  intros Hs. rewrite Write_final_state.
  destruct r as [r0 |]; [| exact Hs].
  case_decide; [apply sound_stored; assumption | exact Hs].
Qed.

Lemma Write_keeps_sound_witness :
  sound NewInMemoryStore ∧
  sound (final_state (Write (Some sample.app_dev) NewInMemoryStore)).
Proof.
  split; [apply sound_new |].
  apply (Write_keeps_sound (Some sample.app_dev) NewInMemoryStore).
  apply sound_new.
Defined.

(** X2. [Write] only appends. Whatever it is given, the full sequence
    before the call is a prefix of the one after it, so is the list of every
    container and of every channel, and no composite key loses its entry. *)
Theorem Write_only_appends (r : ptr Release) (im : inMem) :
  all im `prefix_of` all (final_state (Write r im)) ∧
  (∀ c : string,
     index (byContainer im) c
     `prefix_of` index (byContainer (final_state (Write r im))) c) ∧
  (∀ ch : string,
     index (byChannel im) ch
     `prefix_of` index (byChannel (final_state (Write r im))) ch) ∧
  (∀ k : ReleaseKey,
     is_Some (byBoth im !! k) →
     is_Some (byBoth (final_state (Write r im)) !! k)).
Proof.
  rewrite Write_final_state.
  destruct r as [r0 |]; [| repeat split; auto].
  case_decide; [| repeat split; auto].
  unfold stored; cbn [all byContainer byChannel byBoth]. repeat split.
  - apply prefix_app_r. reflexivity.
  - intros c. rewrite index_insert. case_decide; subst.
    + apply prefix_app_r. reflexivity.
    + reflexivity.
  - intros ch. rewrite index_insert. case_decide; subst.
    + apply prefix_app_r. reflexivity.
    + reflexivity.
  - intros k Hk. rewrite lookup_insert. case_decide; [eauto | exact Hk].
Qed.

(** X3. A release that [Write] accepted is found again: the query on its
    composite key answers exactly that release. The answer for any other
    composite key is the same after the write as before it. *)
Theorem Write_then_Query (im im' : inMem) (r : Release) (ip : string) :
  Write (Some r) im = Returns None im' →
  Query (Some (mkRelease (Container r) ip (ReleaseChannel r))) im'
  = Returns [r] im' ∧
  ∀ c ch : string,
    c ≠ "" → ch ≠ "" → mkReleaseKey c ch ≠ ToKey r →
    ∃ resp : Releases,
      Query (Some (mkRelease c ip ch)) im = Returns resp im ∧
      Query (Some (mkRelease c ip ch)) im' = Returns resp im'.
Proof.
  intros Hw. apply Write_success_inv in Hw as [(Hc & Hch & _) ->]. split.
  - rewrite Query_answer. f_equal. unfold answer, stored; cbn.
    rewrite decide_True by (split; assumption).
    change (mkReleaseKey (Container r) (ReleaseChannel r)) with (ToKey r).
    rewrite lookup_insert_eq. reflexivity.
  - intros c ch Hc' Hch' Hne.
    exists (option_list (byBoth im !! mkReleaseKey c ch)).
    rewrite !Query_answer. unfold answer, stored, ToKey; cbn.
    rewrite !decide_True by (split; assumption).
    rewrite lookup_insert_ne by (intros Heq; apply Hne; symmetry; exact Heq).
    split; reflexivity.
Qed.

Lemma Write_then_Query_witness :
  Write (Some sample.app_prod) (stored sample.app_dev NewInMemoryStore)
  = Returns None sample.two ∧
  Query (Some (mkRelease "app" "" "prod")) sample.two
  = Returns [sample.app_prod] sample.two ∧
  ∃ resp : Releases,
    Query (Some (mkRelease "app" "" "dev"))
      (stored sample.app_dev NewInMemoryStore)
    = Returns resp (stored sample.app_dev NewInMemoryStore) ∧
    Query (Some (mkRelease "app" "" "dev")) sample.two
    = Returns resp sample.two.
Proof.
  assert (Write (Some sample.app_prod) (stored sample.app_dev NewInMemoryStore)
          = Returns None sample.two) as Hw by (vm_compute; reflexivity).
  destruct (Write_then_Query _ _ sample.app_prod "" Hw) as [Hfound Hother].
  split; [exact Hw |]. split; [exact Hfound |].
  apply (Hother "app" "dev"); discriminate.
Defined.

(** The answer of [Query] for each shape of filter, for a container and a
    channel that are set. *)
Lemma answer_shapes (im : inMem) (c ch ip : string) :
  c ≠ "" → ch ≠ "" →
  answer im (mkRelease c ip ch) = option_list (byBoth im !! mkReleaseKey c ch) ∧
  answer im (mkRelease c ip "") = index (byContainer im) c ∧
  answer im (mkRelease "" ip ch) = index (byChannel im) ch ∧
  answer im (mkRelease "" ip "") = all im.
Proof.
  intros Hc Hch. unfold answer, ToKey. cbn.
  rewrite decide_True by (split; assumption).
  rewrite (decide_False (P := c ≠ "" ∧ "" ≠ "")) by (intros [_ ?]; congruence).
  rewrite (decide_True (P := c ≠ "")) by assumption.
  rewrite (decide_False (P := "" ≠ "" ∧ ch ≠ "")) by (intros [? _]; congruence).
  rewrite (decide_False (P := "" ≠ "" ∧ "" ≠ "")) by (intros [? _]; congruence).
  rewrite (decide_False (P := "" ≠ "")) by congruence.
  rewrite (decide_True (P := ch ≠ "")) by assumption.
  repeat split.
Qed.

(** X4. On a store built by the successful writes of [rs], the query on a
    composite key answers the last release of [rs] with that key, or nothing
    when [rs] has none, and the query with no field set answers [rs] itself,
    one element for every successful write. *)
Theorem Query_on_written (rs : list Release) (im : inMem) (c ch ip : string) :
  written rs im → c ≠ "" → ch ≠ "" →
  Query (Some (mkRelease c ip ch)) im
  = Returns
      (option_list (last (filter (λ r, ToKey r = mkReleaseKey c ch) rs))) im ∧
  Query (Some (mkRelease "" ip "")) im = Returns rs im.
Proof.
  intros Hw Hc Hch.
  destruct (written_all_consistent _ _ Hw) as [Hall (_ & _ & Hboth)].
  destruct (answer_shapes im c ch ip Hc Hch) as (E1 & _ & _ & E4).
  rewrite !Query_answer, E1, E4, Hboth, Hall. split; reflexivity.
Qed.

Lemma Query_on_written_witness :
  written
    [sample.app_dev; sample.app_prod]
    sample.two ∧
  "app" ≠ "" ∧ "prod" ≠ "" ∧
  Query (Some (mkRelease "app" "" "prod")) sample.two
  = Returns [sample.app_prod] sample.two ∧
  Query (Some (mkRelease "" "" "")) sample.two
  = Returns [sample.app_dev; sample.app_prod] sample.two.
Proof.
  assert (written [sample.app_dev; sample.app_prod] sample.two) as Hw
    by exact (written_generation [sample.app_dev; sample.app_prod]).
  assert ("app" ≠ "") as Hc by discriminate.
  assert ("prod" ≠ "") as Hch by discriminate.
  split; [exact Hw |]. split; [exact Hc |]. split; [exact Hch |].
  exact (Query_on_written _ _ "app" "prod" "" Hw Hc Hch).
Defined.

(** X5. On a self-consistent store, a narrower filter never answers more:
    the answer for a composite key is a sublist of the answer for its
    container alone and of the answer for its channel alone, and each of
    these is a sublist of the full sequence. *)
Theorem Query_narrowing (im : inMem) (c ch ip : string) :
  consistent im → c ≠ "" → ch ≠ "" →
  ∃ both byc bych everything : Releases,
    Query (Some (mkRelease c ip ch)) im = Returns both im ∧
    Query (Some (mkRelease c ip "")) im = Returns byc im ∧
    Query (Some (mkRelease "" ip ch)) im = Returns bych im ∧
    Query (Some (mkRelease "" ip "")) im = Returns everything im ∧
    both `sublist_of` byc ∧ both `sublist_of` bych ∧
    byc `sublist_of` everything ∧ bych `sublist_of` everything.
Proof.
  intros (Hcont & Hchan & Hboth) Hc Hch.
  destruct (answer_shapes im c ch ip Hc Hch) as (E1 & E2 & E3 & E4).
  eexists _, _, _, _. rewrite !Query_answer, E1, E2, E3, E4.
  repeat (split; [reflexivity |]).
  rewrite Hboth, Hcont, Hchan.
  assert (∀ r, last (filter (λ r, ToKey r = mkReleaseKey c ch) (all im))
               = Some r →
               r ∈ all im ∧ Container r = c ∧ ReleaseChannel r = ch) as Hlast.
  { intros r Hr. apply last_Some_elem_of, list_elem_of_filter in Hr.
    destruct Hr as [Hkey Hin]. injection Hkey as <- <-. auto. }
  repeat split.
  - destruct (last _) as [r |] eqn:Hr; [| apply sublist_nil_l].
    apply singleton_sublist_l, list_elem_of_filter.
    destruct (Hlast r eq_refl) as (? & ? & ?). auto.
  - destruct (last _) as [r |] eqn:Hr; [| apply sublist_nil_l].
    apply singleton_sublist_l, list_elem_of_filter.
    destruct (Hlast r eq_refl) as (? & ? & ?). auto.
  - apply sublist_filter.
  - apply sublist_filter.
Qed.

Lemma Query_narrowing_witness :
  consistent sample.two ∧ "app" ≠ "" ∧ "prod" ≠ "" ∧
  ∃ both byc bych everything : Releases,
    Query (Some (mkRelease "app" "" "prod")) sample.two
    = Returns both sample.two ∧
    Query (Some (mkRelease "app" "" "")) sample.two = Returns byc sample.two ∧
    Query (Some (mkRelease "" "" "prod")) sample.two
    = Returns bych sample.two ∧
    Query (Some (mkRelease "" "" "")) sample.two
    = Returns everything sample.two ∧
    both `sublist_of` byc ∧ both `sublist_of` bych ∧
    byc `sublist_of` everything ∧ bych `sublist_of` everything.
Proof.
  assert (consistent sample.two) as Hcons
    by apply (written_all_consistent _ _
                (written_generation [sample.app_dev; sample.app_prod])).
  assert ("app" ≠ "") as Hc by discriminate.
  assert ("prod" ≠ "") as Hch by discriminate.
  split; [exact Hcons |]. split; [exact Hc |]. split; [exact Hch |].
  exact (Query_narrowing sample.two "app" "prod" "" Hcons Hc Hch).
Defined.

Lemma filter_not_nil {A} (P : A → Prop) `{∀ x, Decision (P x)} (l : list A) :
  filter P l ≠ [] ↔ ∃ x, x ∈ l ∧ P x.
Proof.
  split.
  - intros Hne. destruct (filter P l) as [| x l'] eqn:Hf; [congruence |].
    assert (x ∈ filter P l) as Hx by (rewrite Hf; left).
    apply list_elem_of_filter in Hx. exists x. tauto.
  - intros (x & Hin & HP). apply (elem_of_not_nil x).
    apply list_elem_of_filter. tauto.
Qed.

(** On a store built by the writes of [rs], the answer holds only releases
    of [rs] that match the filter, and it is empty exactly when no release
    of [rs] matches. *)
Lemma answer_matches (rs : list Release) (im : inMem) (c ch ip : string) :
  written rs im →
  (∀ r, r ∈ answer im (mkRelease c ip ch) → r ∈ rs ∧ matches c ch r) ∧
  (answer im (mkRelease c ip ch) ≠ [] ↔ ∃ r, r ∈ rs ∧ matches c ch r).
Proof.
  intros Hw.
  destruct (written_all_consistent _ _ Hw) as [Hall (Hcont & Hchan & Hboth)].
  unfold answer, matches. cbn [Container ReleaseChannel].
  destruct (decide (c = "")) as [-> | Hc];
    destruct (decide (ch = "")) as [-> | Hch].
  - rewrite (decide_False (P := "" ≠ "" ∧ "" ≠ "")) by (intros [? _]; congruence).
    rewrite (decide_False (P := "" ≠ "")) by congruence.
    rewrite Hall. split; [intros r Hr; auto |].
    split.
    + intros Hne. destruct rs as [| r rs']; [contradiction |].
      exists r. split; [left | auto].
    + intros (r & Hr & _). apply (elem_of_not_nil r), Hr.
  - rewrite (decide_False (P := "" ≠ "" ∧ ch ≠ "")) by (intros [? _]; congruence).
    rewrite (decide_False (P := "" ≠ "")) by congruence.
    rewrite (decide_True (P := ch ≠ "")) by assumption.
    rewrite Hchan, Hall. split.
    + intros r Hr. apply list_elem_of_filter in Hr. tauto.
    + rewrite filter_not_nil. split; intros (r & Hr & Hm); exists r.
      * tauto.
      * destruct Hm as [_ [? | ?]]; [congruence | tauto].
  - rewrite (decide_False (P := c ≠ "" ∧ "" ≠ "")) by (intros [_ ?]; congruence).
    rewrite (decide_True (P := c ≠ "")) by assumption.
    rewrite Hcont, Hall. split.
    + intros r Hr. apply list_elem_of_filter in Hr. tauto.
    + rewrite filter_not_nil. split; intros (r & Hr & Hm); exists r.
      * tauto.
      * destruct Hm as [[? | ?] _]; [congruence | tauto].
  - rewrite decide_True by (split; assumption).
    unfold ToKey. cbn [Container ReleaseChannel].
    rewrite Hboth, Hall.
    assert (∀ r, ToKey r = mkReleaseKey c ch
                 ↔ (c = "" ∨ Container r = c) ∧ (ch = "" ∨ ReleaseChannel r = ch))
      as Hkey.
    { intros r. unfold ToKey. split.
      - intros Heq. injection Heq as <- <-. auto.
      - intros [[? | <-] [? | <-]]; congruence. }
    split.
    + intros r Hr.
      destruct (last _) as [r0 |] eqn:Hlast; cbn in Hr;
        [| apply elem_of_nil in Hr; contradiction].
      apply list_elem_of_singleton in Hr as ->.
      apply last_Some_elem_of, list_elem_of_filter in Hlast.
      split; [tauto | apply Hkey; tauto].
    + split.
      * intros Hne.
        destruct (last _) as [r0 |] eqn:Hlast; [| contradiction].
        apply last_Some_elem_of, list_elem_of_filter in Hlast.
        exists r0. split; [tauto | apply Hkey; tauto].
      * intros (r & Hr & Hm).
        assert (filter (λ r, ToKey r = mkReleaseKey c ch) rs ≠ []) as Hne.
        { apply filter_not_nil. exists r. split; [exact Hr | apply Hkey, Hm]. }
        apply last_is_Some in Hne as [r0 ->]. discriminate.
Qed.

(** X6. On a store built by the successful writes of [rs], the query
    handler answers with status 200 exactly when some release of [rs]
    matches the request's parameters, and with status 404 and an empty list
    otherwise; every release of the body is a release of [rs] that matches.
    The server is left as it was. *)
Theorem queryHandler_found_iff (rs : list Release) (s : srv)
    (container releaseChannel : string) :
  written rs (db s) →
  ∃ (code : nat) (resp : Releases),
    queryHandler container releaseChannel s
    = Returns (mkResponse code (JSON_Releases resp)) s ∧
    (∀ r, r ∈ resp → r ∈ rs ∧ matches container releaseChannel r) ∧
    (code = StatusOK ↔ ∃ r, r ∈ rs ∧ matches container releaseChannel r) ∧
    (code = StatusNotFound ↔ resp = []) ∧
    (code = StatusOK ∨ code = StatusNotFound).
Proof.
  intros Hw.
  destruct (answer_matches rs (db s) container releaseChannel "" Hw)
    as [Hsound Hfound].
  rewrite queryHandler_answer. cbn zeta.
  set (resp := answer (db s) (mkRelease container "" releaseChannel)) in *.
  eexists _, resp. split; [reflexivity |]. split; [exact Hsound |].
  destruct (decide (0 < length resp)%nat) as [Hlen | Hlen].
  - assert (resp ≠ []) as Hne by (intros E; rewrite E in Hlen; cbn in Hlen; lia).
    repeat split; auto.
    + intros _. apply Hfound, Hne.
    + discriminate.
    + intros E. contradiction.
  - assert (resp = []) as Hnil by (destruct resp; [reflexivity | cbn in Hlen; lia]).
    repeat split; auto.
    + discriminate.
    + intros Hex. apply Hfound in Hex. contradiction.
Qed.

Lemma queryHandler_found_iff_witness :
  written [sample.app_dev; sample.app_prod]
    (db (set_db sample.two sample.serving)) ∧
  ∃ (code : nat) (resp : Releases),
    queryHandler "missing" "" (set_db sample.two sample.serving)
    = Returns (mkResponse code (JSON_Releases resp))
        (set_db sample.two sample.serving) ∧
    (code = StatusNotFound ↔ resp = []).
Proof.
  assert (written [sample.app_dev; sample.app_prod]
            (db (set_db sample.two sample.serving))) as Hw
    by exact (written_generation [sample.app_dev; sample.app_prod]).
  split; [exact Hw |].
  destruct (queryHandler_found_iff _ (set_db sample.two sample.serving)
              "missing" "" Hw) as (code & resp & Hq & _ & _ & Hnf & _).
  exists code, resp. split; [exact Hq | exact Hnf].
Defined.

(** * Further properties of loading and reloading *)

Lemma sound_generation (rs : list Release) : sound (generation rs).
Proof.
  pose proof (written_all_consistent _ _ (written_generation rs))
    as [Hall Hcons].
  split; [exact Hcons |]. rewrite Hall.
  apply Forall_forall. intros r Hr. apply list_elem_of_filter in Hr. tauto.
Qed.

Section FurtherLoading.

Variable json_Unmarshal : Decoder.

(** The loop of [loadDatabase] on any decoded slice: it stores the passing
    records that come before the first nil pointer, and panics there if
    there is one. *)
Lemma range_Write_ptrs (ps : list (ptr Release)) (s : srv) :
  range ps
    (λ r, err ← s_db (Write r);
          match err with Some _ => mret tt | None => mret tt end) s
  = (if has_nil ps then Panics else Returns tt)
      (set_db
         (foldl (λ im r, stored r im) (db s) (filter passes (before_nil ps)))
         s).
Proof.
  revert s. induction ps as [| [r |] ps IH]; intros s.
  - cbn. rewrite set_db_db. reflexivity.
  - cbn [range has_nil before_nil]. unfold s_db, on_field. run.
    destruct (decide (passes r)) as [Hp | Hp].
    + rewrite (Write_passes _ _ Hp), IH, filter_cons_True by assumption.
      reflexivity.
    + destruct (Write_fails r (db s) Hp) as [msg ->].
      rewrite IH, filter_cons_False by assumption.
      destruct s. reflexivity.
  - cbn [range has_nil before_nil]. unfold s_db, on_field, Write. run.
    cbn. rewrite set_db_db. reflexivity.
Qed.

(** The outcome of [loadDatabase] on any blob. *)
Lemma loadDatabase_outcome (data : list byte) (s : srv) :
  loadDatabase json_Unmarshal data s
  = match json_Unmarshal data with
    | Err e => Returns (Some e) (set_db NewInMemoryStore s)
    | Ok ps =>
        if has_nil ps then Panics (set_db (generation (before_nil ps)) s)
        else Returns None (set_db (generation (before_nil ps)) s)
    end.
Proof.
  unfold loadDatabase. run.
  destruct (json_Unmarshal data) as [ps | e]; [| reflexivity].
  pose proof (range_Write_ptrs ps (set_db NewInMemoryStore s)) as Hrange.
  run in Hrange. rewrite Hrange.
  destruct (has_nil ps); reflexivity.
Qed.

(** X7. After [loadDatabase], on any blob and however the call ends
    (success, decoding error, or panic on a nil record), the published store
    is sound: self-consistent, and holding only releases whose three fields
    are set. The file name and the watermark are as before. *)
Theorem loadDatabase_always_sound (data : list byte) (s : srv) :
  sound (db (final_state (loadDatabase json_Unmarshal data s))) ∧
  dbFile (final_state (loadDatabase json_Unmarshal data s)) = dbFile s ∧
  lastMod (final_state (loadDatabase json_Unmarshal data s)) = lastMod s.
Proof.
  rewrite loadDatabase_outcome.
  destruct (json_Unmarshal data) as [ps | e].
  - destruct (has_nil ps); cbn; repeat split;
      apply (sound_generation (before_nil ps)).
  - cbn. repeat split; apply sound_new.
Qed.

(** Where a call of [ReloadDatabase] leaves the server, however it ends:
    the file name is kept, the watermark has not moved back, and the store
    is the one there was or the generation of some list of records. *)
Lemma ReloadDatabase_final (fs : FileSystem) (s : srv) :
  dbFile (final_state (ReloadDatabase json_Unmarshal fs s)) = dbFile s ∧
  (lastMod s ≤ lastMod (final_state (ReloadDatabase json_Unmarshal fs s)))%Z ∧
  (db (final_state (ReloadDatabase json_Unmarshal fs s)) = db s
   ∨ ∃ l, db (final_state (ReloadDatabase json_Unmarshal fs s))
          = generation l).
Proof.
  unfold ReloadDatabase. run.
  destruct (os_Stat fs (dbFile s)) as [stat | e];
    [| cbn; repeat split; [lia | auto]].
  unfold After. destruct (Z.ltb_spec (lastMod s) (ModTime stat)) as [Hlt | Hge];
    cbn [negb]; [| cbn; repeat split; [lia | auto]].
  destruct (os_ReadFile fs (dbFile s)) as [data | e];
    [| cbn; repeat split; [lia | auto]].
  rewrite loadDatabase_outcome.
  destruct (json_Unmarshal data) as [ps | e].
  - destruct (has_nil ps); cbn; repeat split; try lia; right; eauto.
  - cbn. repeat split; [lia |]. right. exists []. reflexivity.
Qed.

(** A property of the server that every call of [ReloadDatabase] keeps is
    kept by the watcher over any events. *)
Lemma fileWatcher_invariant (P : srv → Prop) :
  (∀ fs s, P s → P (final_state (ReloadDatabase json_Unmarshal fs s))) →
  ∀ events s, P s → P (final_state (fileWatcher json_Unmarshal events s)).
Proof.
  intros Hkeep events.
  induction events as [| [fs |] events IH]; intros s HP.
  - exact HP.
  - cbn [fileWatcher]. run. specialize (Hkeep fs s HP).
    destruct (ReloadDatabase json_Unmarshal fs s) as [[e |] s' | s'];
      cbn [final_state] in Hkeep; try (apply IH; exact Hkeep).
    exact Hkeep.
  - exact HP.
Qed.

(** X8. Reloading keeps the published store sound. If the store is sound,
    it is sound after [ReloadDatabase] and after the watcher has run on any
    events, however these end: unchanged, reloaded, blanked by a malformed
    file, or cut short by a panic. *)
Theorem fileWatcher_keeps_sound (events : list Event) (fs : FileSystem)
    (s : srv) :
  sound (db s) →
  sound (db (final_state (ReloadDatabase json_Unmarshal fs s))) ∧
  sound (db (final_state (fileWatcher json_Unmarshal events s))).
Proof.
  assert (∀ fs s, sound (db s) →
            sound (db (final_state (ReloadDatabase json_Unmarshal fs s))))
    as Hkeep.
  { intros fs0 s0 Hs.
    destruct (ReloadDatabase_final fs0 s0) as (_ & _ & [-> | [l ->]]);
      [exact Hs | apply sound_generation]. }
  intros Hs. split; [apply Hkeep, Hs |].
  apply (fileWatcher_invariant (λ s, sound (db s)) Hkeep), Hs.
Qed.

(** X9. The watermark never moves back and the file name never changes:
    after [ReloadDatabase], and after the watcher has run on any events,
    [lastMod] is at least what it was and [dbFile] is what it was. *)
Theorem fileWatcher_watermark_monotone (events : list Event)
    (fs : FileSystem) (s : srv) :
  (lastMod s ≤ lastMod (final_state (ReloadDatabase json_Unmarshal fs s)))%Z ∧
  dbFile (final_state (ReloadDatabase json_Unmarshal fs s)) = dbFile s ∧
  (lastMod s
   ≤ lastMod (final_state (fileWatcher json_Unmarshal events s)))%Z ∧
  dbFile (final_state (fileWatcher json_Unmarshal events s)) = dbFile s.
Proof.
  destruct (ReloadDatabase_final fs s) as (Hfile & Hmod & _).
  split; [exact Hmod |]. split; [exact Hfile |].
  apply (fileWatcher_invariant
           (λ s', (lastMod s ≤ lastMod s')%Z ∧ dbFile s' = dbFile s)).
  - intros fs0 s0 [Hle Heq].
    destruct (ReloadDatabase_final fs0 s0) as (Hfile0 & Hmod0 & _).
    split; [lia | congruence].
  - split; [lia | reflexivity].
Qed.

End FurtherLoading.

Lemma fileWatcher_keeps_sound_witness :
  sound (db sample.serving) ∧
  sound
    (db (final_state
           (fileWatcher sample.json_Unmarshal
              [ticker_C (sample.file 200%Z sample.truncated);
               ticker_C
                 (sample.file 300%Z
                    (sample.document [sample.app_dev; sample.app_prod]))]
              sample.serving))).
Proof.
  assert (sound (db sample.serving)) as Hs
    by exact (sound_stored sample.app_dev NewInMemoryStore
                ltac:(repeat split; discriminate) sound_new).
  split; [exact Hs |].
  apply (fileWatcher_keeps_sound sample.json_Unmarshal _ sample.missing
           sample.serving Hs).
Defined.

Section FurtherReloading.

Variable json_Unmarshal : Decoder.

(** [ReloadDatabase] on a file that is not newer than the watermark. *)
Lemma ReloadDatabase_not_newer (fs : FileSystem) (s : srv) (stat : FileInfo) :
  os_Stat fs (dbFile s) = Ok stat →
  (ModTime stat ≤ lastMod s)%Z →
  ReloadDatabase json_Unmarshal fs s = Returns None s.
Proof.
  intros Hstat Hold. unfold ReloadDatabase. run. rewrite Hstat. unfold After.
  rewrite (proj2 (Z.ltb_ge _ _) Hold). reflexivity.
Qed.

(** X10. A reload from a newer, readable file that decodes to the records
    [rs] returns no error, publishes the store of exactly the passing
    records of [rs], whatever the store held before, and sets the watermark
    to the file's modification time. A second reload against the same file
    then changes nothing. The on-demand handler reports the reload with
    status 200. *)
Theorem ReloadDatabase_replaces_then_rests (fs : FileSystem) (s : srv)
    (stat : FileInfo) (data : list byte) (rs : list Release) :
  os_Stat fs (dbFile s) = Ok stat →
  (lastMod s < ModTime stat)%Z →
  os_ReadFile fs (dbFile s) = Ok data →
  json_Unmarshal data = Ok (Some <$> rs) →
  ReloadDatabase json_Unmarshal fs s
  = Returns None (mkSrv (generation rs) (dbFile s) (ModTime stat)) ∧
  ReloadDatabase json_Unmarshal fs
    (mkSrv (generation rs) (dbFile s) (ModTime stat))
  = Returns None (mkSrv (generation rs) (dbFile s) (ModTime stat)) ∧
  reloadHandler json_Unmarshal fs s
  = Returns (mkResponse StatusOK (JSON_map "status" "reloaded"))
      (mkSrv (generation rs) (dbFile s) (ModTime stat)).
Proof.
  intros Hstat Hnewer Hread Hdec.
  assert (ReloadDatabase json_Unmarshal fs s
          = Returns None (mkSrv (generation rs) (dbFile s) (ModTime stat)))
    as Hreload.
  { rewrite (ReloadDatabase_newer _ fs s stat data Hstat Hnewer Hread).
    rewrite (loadDatabase_Ok _ _ _ _ Hdec). reflexivity. }
  split; [exact Hreload |]. split.
  - apply (ReloadDatabase_not_newer fs _ stat); cbn; [exact Hstat | lia].
  - unfold reloadHandler. run. rewrite Hreload. reflexivity.
Qed.

(** X11. After such a reload, a query for a container is answered with the
    passing records of the file that have this container, in the order of
    the file, and with nothing of what the store held before. *)
Theorem reload_then_query (fs : FileSystem) (s : srv) (stat : FileInfo)
    (data : list byte) (rs : list Release) (container : string) :
  os_Stat fs (dbFile s) = Ok stat →
  (lastMod s < ModTime stat)%Z →
  os_ReadFile fs (dbFile s) = Ok data →
  json_Unmarshal data = Ok (Some <$> rs) →
  container ≠ "" →
  let found := filter (λ r, Container r = container) (filter passes rs) in
  ∃ s' : srv,
    ReloadDatabase json_Unmarshal fs s = Returns None s' ∧
    queryHandler container "" s'
    = Returns
        (mkResponse
           (if decide (found = []) then StatusNotFound else StatusOK)
           (JSON_Releases found))
        s'.
Proof.
  intros Hstat Hnewer Hread Hdec Hc found.
  exists (mkSrv (generation rs) (dbFile s) (ModTime stat)). split.
  - rewrite (ReloadDatabase_newer _ fs s stat data Hstat Hnewer Hread).
    rewrite (loadDatabase_Ok _ _ _ _ Hdec). reflexivity.
  - rewrite queryHandler_answer. cbn zeta. cbn [db].
    destruct (written_all_consistent _ _ (written_generation rs))
      as [Hall (Hcont & _)].
    assert (answer (generation rs) (mkRelease container "" "")
            = filter (λ r, Container r = container) (filter passes rs)) as ->.
    { unfold answer. cbn [Container ReleaseChannel].
      rewrite (decide_False (P := container ≠ "" ∧ "" ≠ ""))
        by (intros [_ ?]; congruence).
      rewrite (decide_True (P := container ≠ "")) by assumption.
      rewrite Hcont, Hall. reflexivity. }
    fold found. f_equal. f_equal.
    destruct found; repeat case_decide; cbn in *; congruence || lia.
Qed.

Lemma before_nil_app (pre : list Release) (rest : list (ptr Release)) :
  before_nil ((Some <$> pre) ++ None :: rest) = pre ∧
  has_nil ((Some <$> pre) ++ None :: rest) = true.
Proof.
  induction pre as [| r pre [IH1 IH2]]; [split; reflexivity |].
  cbn. rewrite IH1. split; [reflexivity | exact IH2].
Qed.

(** X12. A decoded slice with a nil pointer in it (a [null] element of the
    document) makes the load panic at that element: the published store
    then holds the passing records that came before it and none that came
    after. A reload that hits it panics as well, with the watermark kept,
    and so does the watcher, which runs no later event. *)
Theorem loadDatabase_nil_record_panics (fs : FileSystem) (s : srv)
    (stat : FileInfo) (data : list byte) (pre : list Release)
    (rest : list (ptr Release)) (events : list Event) :
  os_Stat fs (dbFile s) = Ok stat →
  (lastMod s < ModTime stat)%Z →
  os_ReadFile fs (dbFile s) = Ok data →
  json_Unmarshal data = Ok ((Some <$> pre) ++ None :: rest) →
  loadDatabase json_Unmarshal data s = Panics (set_db (generation pre) s) ∧
  ReloadDatabase json_Unmarshal fs s = Panics (set_db (generation pre) s) ∧
  fileWatcher json_Unmarshal (ticker_C fs :: events) s
  = Panics (set_db (generation pre) s).
Proof.
  intros Hstat Hnewer Hread Hdec.
  assert (loadDatabase json_Unmarshal data s
          = Panics (set_db (generation pre) s)) as Hload.
  { rewrite loadDatabase_outcome, Hdec.
    destruct (before_nil_app pre rest) as [-> ->]. reflexivity. }
  assert (ReloadDatabase json_Unmarshal fs s
          = Panics (set_db (generation pre) s)) as Hreload.
  { rewrite (ReloadDatabase_newer _ fs s stat data Hstat Hnewer Hread).
    rewrite Hload. reflexivity. }
  split; [exact Hload |]. split; [exact Hreload |].
  cbn [fileWatcher]. run. rewrite Hreload. reflexivity.
Qed.

(** X13. A server constructed by [New] from data that decodes to [rs],
    with a backing file that can be stated, holds the passing records of
    [rs] and has the file's modification time as watermark; a reload against
    the same file system then changes nothing, whatever the file holds. *)
Theorem New_then_reload_rests (fs : FileSystem) (data : list byte)
    (file : string) (rs : list Release) (stat : FileInfo) :
  os_Stat fs file = Ok stat →
  json_Unmarshal data = Ok (Some <$> rs) →
  New json_Unmarshal fs data file
  = Returns None (mkSrv (generation rs) file (ModTime stat)) ∧
  ReloadDatabase json_Unmarshal fs (mkSrv (generation rs) file (ModTime stat))
  = Returns None (mkSrv (generation rs) file (ModTime stat)).
Proof.
  intros Hstat Hdec. split.
  - unfold New. rewrite Hstat, (loadDatabase_Ok _ _ _ _ Hdec). reflexivity.
  - apply (ReloadDatabase_not_newer fs _ stat); cbn; [exact Hstat | lia].
Qed.

(** X14. Once the watcher receives the cancellation it stops: the events
    after it are never run, and if the watcher returns it returns stopped. *)
Theorem fileWatcher_stops_at_cancel (before after : list Event) (s : srv) :
  fileWatcher json_Unmarshal (before ++ ctx_Done :: after) s
  = fileWatcher json_Unmarshal (before ++ [ctx_Done]) s ∧
  ∀ (w : Watcher) (s' : srv),
    fileWatcher json_Unmarshal (before ++ ctx_Done :: after) s = Returns w s' →
    w = Stopped.
Proof.
  revert s. induction before as [| [fs |] before IH]; intros s.
  - split; [reflexivity |]. cbn. unfold ret. intros w s' [= <- _]. reflexivity.
  - cbn [app fileWatcher]. run.
    destruct (ReloadDatabase json_Unmarshal fs s) as [[e |] s1 | s1].
    + apply IH.
    + apply IH.
    + split; [reflexivity | discriminate].
  - split; [reflexivity |]. cbn. unfold ret. intros w s' [= <- _]. reflexivity.
Qed.

End FurtherReloading.

Lemma ReloadDatabase_replaces_then_rests_witness :
  let records := [sample.app_dev; sample.nameless; sample.app_prod] in
  let fs := sample.file 200%Z (sample.document records) in
  os_Stat fs (dbFile sample.serving) = Ok (mkFileInfo 200%Z) ∧
  (lastMod sample.serving < ModTime (mkFileInfo 200%Z))%Z ∧
  os_ReadFile fs (dbFile sample.serving) = Ok (sample.document records) ∧
  sample.json_Unmarshal (sample.document records) = Ok (Some <$> records) ∧
  ReloadDatabase sample.json_Unmarshal fs sample.serving
  = Returns None (mkSrv sample.two sample.path 200%Z).
Proof.
  intros records fs.
  assert (lastMod sample.serving < ModTime (mkFileInfo 200%Z))%Z as Hnewer
    by (cbn; lia).
  assert (sample.json_Unmarshal (sample.document records)
          = Ok (Some <$> records)) as Hdec by (vm_compute; reflexivity).
  split; [reflexivity |]. split; [exact Hnewer |]. split; [reflexivity |].
  split; [exact Hdec |].
  exact (proj1 (ReloadDatabase_replaces_then_rests sample.json_Unmarshal fs
                  sample.serving (mkFileInfo 200%Z) (sample.document records)
                  records eq_refl Hnewer eq_refl Hdec)).
Defined.

Lemma reload_then_query_witness :
  let records := [sample.app_dev; sample.nameless; sample.app_prod] in
  let fs := sample.file 200%Z (sample.document records) in
  os_Stat fs (dbFile sample.serving) = Ok (mkFileInfo 200%Z) ∧
  (lastMod sample.serving < ModTime (mkFileInfo 200%Z))%Z ∧
  os_ReadFile fs (dbFile sample.serving) = Ok (sample.document records) ∧
  sample.json_Unmarshal (sample.document records) = Ok (Some <$> records) ∧
  "app" ≠ "" ∧
  ∃ s' : srv,
    ReloadDatabase sample.json_Unmarshal fs sample.serving = Returns None s' ∧
    queryHandler "app" "" s'
    = Returns
        (mkResponse StatusOK
           (JSON_Releases [sample.app_dev; sample.app_prod]))
        s'.
Proof.
  intros records fs.
  assert (lastMod sample.serving < ModTime (mkFileInfo 200%Z))%Z as Hnewer
    by (cbn; lia).
  assert (sample.json_Unmarshal (sample.document records)
          = Ok (Some <$> records)) as Hdec by (vm_compute; reflexivity).
  assert ("app" ≠ "") as Hc by discriminate.
  split; [reflexivity |]. split; [exact Hnewer |]. split; [reflexivity |].
  split; [exact Hdec |]. split; [exact Hc |].
  exact (reload_then_query sample.json_Unmarshal fs sample.serving
           (mkFileInfo 200%Z) (sample.document records) records "app"
           eq_refl Hnewer eq_refl Hdec Hc).
Defined.

Lemma loadDatabase_nil_record_panics_witness :
  let fs := sample.file 200%Z sample.with_null in
  os_Stat fs (dbFile sample.serving) = Ok (mkFileInfo 200%Z) ∧
  (lastMod sample.serving < ModTime (mkFileInfo 200%Z))%Z ∧
  os_ReadFile fs (dbFile sample.serving) = Ok sample.with_null ∧
  sample.json_Unmarshal_null sample.with_null
  = Ok ((Some <$> [sample.app_dev]) ++ None :: [Some sample.app_prod]) ∧
  ReloadDatabase sample.json_Unmarshal_null fs sample.serving
  = Panics (set_db (generation [sample.app_dev]) sample.serving).
Proof.
  intros fs.
  assert (lastMod sample.serving < ModTime (mkFileInfo 200%Z))%Z as Hnewer
    by (cbn; lia).
  assert (sample.json_Unmarshal_null sample.with_null
          = Ok ((Some <$> [sample.app_dev]) ++ None :: [Some sample.app_prod]))
    as Hdec by (vm_compute; reflexivity).
  split; [reflexivity |]. split; [exact Hnewer |]. split; [reflexivity |].
  split; [exact Hdec |].
  exact (proj1 (proj2
           (loadDatabase_nil_record_panics sample.json_Unmarshal_null fs
              sample.serving (mkFileInfo 200%Z) sample.with_null
              [sample.app_dev] [Some sample.app_prod] []
              eq_refl Hnewer eq_refl Hdec))).
Defined.

Lemma New_then_reload_rests_witness :
  let data := sample.document [sample.app_dev; sample.app_prod] in
  let fs := sample.file 100%Z (sample.document [sample.app_prod]) in
  os_Stat fs sample.path = Ok (mkFileInfo 100%Z) ∧
  sample.json_Unmarshal data
  = Ok (Some <$> [sample.app_dev; sample.app_prod]) ∧
  New sample.json_Unmarshal fs data sample.path
  = Returns None (mkSrv sample.two sample.path 100%Z) ∧
  ReloadDatabase sample.json_Unmarshal fs (mkSrv sample.two sample.path 100%Z)
  = Returns None (mkSrv sample.two sample.path 100%Z).
Proof.
  intros data fs.
  assert (sample.json_Unmarshal data
          = Ok (Some <$> [sample.app_dev; sample.app_prod])) as Hdec
    by (vm_compute; reflexivity).
  split; [reflexivity |]. split; [exact Hdec |].
  exact (New_then_reload_rests sample.json_Unmarshal fs data sample.path
           [sample.app_dev; sample.app_prod] (mkFileInfo 100%Z) eq_refl Hdec).
Defined.

(** * Properties of the key's rendering and of start-up *)

Lemma append_slash_split (a c b d : string) :
  has_slash a = false → has_slash c = false →
  a +:+ "/" +:+ b = c +:+ "/" +:+ d → a = c ∧ b = d.
Proof.
  revert c. induction a as [| x a IH]; intros [| y c] Ha Hc Heq;
    simpl in Ha, Hc, Heq.
  - injection Heq as Heq. change (b = d) in Heq. subst. split; reflexivity.
  - injection Heq as Hy _. subst y.
    rewrite Ascii.eqb_refl in Hc. discriminate.
  - injection Heq as Hx _. subst x.
    rewrite Ascii.eqb_refl in Ha. discriminate.
  - injection Heq as Hxy Heq. subst y.
    destruct (Ascii.eqb x "/"); [discriminate |].
    destruct (IH c Ha Hc Heq) as [-> ->]. split; reflexivity.
Qed.

(** X15. [ReleaseKey.String] tells keys apart as long as the container
    names hold no slash: two such keys with the same rendering are the same
    key. *)
Theorem ReleaseKey_String_injective (k1 k2 : ReleaseKey) :
  has_slash (kContainer k1) = false →
  has_slash (kContainer k2) = false →
  ReleaseKey_String k1 = ReleaseKey_String k2 →
  k1 = k2.
Proof.
  intros H1 H2 Heq. destruct k1 as [c1 ch1], k2 as [c2 ch2].
  unfold ReleaseKey_String in Heq. cbn in *.
  destruct (append_slash_split c1 c2 ch1 ch2 H1 H2 Heq) as [-> ->].
  reflexivity.
Qed.

Lemma ReleaseKey_String_injective_witness :
  has_slash (kContainer (ToKey sample.app_dev)) = false ∧
  ReleaseKey_String (ToKey sample.app_dev) = "app/dev" ∧
  ∀ k : ReleaseKey,
    has_slash (kContainer k) = false →
    ReleaseKey_String k = ReleaseKey_String (ToKey sample.app_dev) →
    k = ToKey sample.app_dev.
Proof.
  split; [reflexivity |]. split; [reflexivity |].
  intros k Hk Heq.
  exact (ReleaseKey_String_injective k (ToKey sample.app_dev) Hk eq_refl Heq).
Defined.

(** Case analysis on the results of start-up. *)
Ltac start_up :=
  repeat match goal with
         | H : ∃ _, _ |- _ => destruct H
         | H : _ ∧ _ |- _ => destruct H
         | H : _ ∨ _ |- _ => destruct H
         end;
  simplify_eq;
  repeat match goal with
         | H1 : ?t = _, H2 : ?t = _ |- _ => rewrite H1 in H2; simplify_eq
         end;
  cbn;
  first [ reflexivity | congruence | solve [eauto 10] ].

(** X16. How [main] starts. It runs the server exactly when the data file
    opens, is read, and decodes to a slice with no nil pointer; the server
    then holds the passing records of the file under the name [inFile], with
    the file's modification time as watermark, or the zero time when the file
    cannot be stated. The process ends with status 1 exactly when the file
    does not open, and with status 2 exactly when reading fails, decoding
    fails, or the decoded slice holds a nil pointer, on which the
    construction of the server panics. *)
Theorem main_start_up {File : Type} (json_Unmarshal : Decoder)
    (os_Open : string → res File) (io_ReadAll : File → res (list byte))
    (fs : FileSystem) :
  (∀ s : srv,
     cmd.main json_Unmarshal os_Open io_ReadAll fs = cmd.Serving s
     ↔ ∃ handle data ps,
         os_Open cmd.inFile = Ok handle ∧
         io_ReadAll handle = Ok data ∧
         json_Unmarshal data = Ok ps ∧
         has_nil ps = false ∧
         s = mkSrv (generation (before_nil ps)) cmd.inFile
               match os_Stat fs cmd.inFile with
               | Ok stat => ModTime stat
               | Err _ => zero_Time
               end) ∧
  (cmd.exit_status (cmd.main json_Unmarshal os_Open io_ReadAll fs) = Some 1
   ↔ ∃ e, os_Open cmd.inFile = Err e) ∧
  (cmd.exit_status (cmd.main json_Unmarshal os_Open io_ReadAll fs) = Some 2
   ↔ ∃ handle,
       os_Open cmd.inFile = Ok handle ∧
       ((∃ e, io_ReadAll handle = Err e)
        ∨ ∃ data,
            io_ReadAll handle = Ok data ∧
            ((∃ e, json_Unmarshal data = Err e)
             ∨ ∃ ps, json_Unmarshal data = Ok ps ∧ has_nil ps = true))).
Proof.
  unfold cmd.main, New.
  destruct (os_Open cmd.inFile) as [handle | e] eqn:Hopen.
  2:{ split; [| split]; [intros s | |]; split; intros H; start_up. }
  destruct (io_ReadAll handle) as [data | e] eqn:Hread.
  2:{ split; [| split]; [intros s | |]; split; intros H; start_up. }
  rewrite loadDatabase_outcome.
  destruct (json_Unmarshal data) as [ps | e] eqn:Hdec.
  2:{ split; [| split]; [intros s | |]; split; intros H; start_up. }
  destruct (has_nil ps) eqn:Hnil.
  - split; [| split]; [intros s | |]; split; intros H; start_up.
  - split; [| split]; [intros s | |]; split; intros H; start_up.
Qed.

Example main_on_sample :
  cmd.main sample.json_Unmarshal
    (sample.os_Open (sample.document [sample.app_dev; sample.app_prod]))
    sample.io_ReadAll
    (sample.file 100%Z (sample.document [sample.app_dev; sample.app_prod]))
  = cmd.Serving (mkSrv sample.two cmd.inFile 100%Z) ∧
  cmd.main sample.json_Unmarshal (sample.os_Open sample.truncated)
    sample.io_ReadAll (sample.file 100%Z sample.truncated)
  = cmd.Exit 2 ∧
  cmd.exit_status
    (cmd.main sample.json_Unmarshal_null (sample.os_Open sample.with_null)
       sample.io_ReadAll (sample.file 100%Z sample.with_null))
  = Some 2.
Proof. repeat split; vm_compute; reflexivity. Qed.

(** X18. A reload that failed on a malformed file is tried again: since
    the watermark was kept, the next tick loads a well-formed file that is
    newer than the watermark, even one that is not newer than the malformed
    file was, and publishes its passing records. *)
Theorem fileWatcher_retries_after_malformed (json_Unmarshal : Decoder)
    (bad good : FileSystem) (s : srv) (stat_bad stat_good : FileInfo)
    (data_bad data_good : list byte) (e : string) (rs : list Release) :
  os_Stat bad (dbFile s) = Ok stat_bad →
  (lastMod s < ModTime stat_bad)%Z →
  os_ReadFile bad (dbFile s) = Ok data_bad →
  json_Unmarshal data_bad = Err e →
  os_Stat good (dbFile s) = Ok stat_good →
  (lastMod s < ModTime stat_good)%Z →
  os_ReadFile good (dbFile s) = Ok data_good →
  json_Unmarshal data_good = Ok (Some <$> rs) →
  fileWatcher json_Unmarshal [ticker_C bad; ticker_C good] s
  = Returns Selecting (mkSrv (generation rs) (dbFile s) (ModTime stat_good)).
Proof.
  intros Hstat Hnewer Hread Hdec Hstat' Hnewer' Hread' Hdec'.
  cbn [fileWatcher]. run.
  rewrite (ReloadDatabase_malformed _ bad s stat_bad data_bad e
             Hstat Hnewer Hread Hdec).
  rewrite (ReloadDatabase_newer _ good (set_db NewInMemoryStore s) stat_good
             data_good Hstat' Hnewer' Hread').
  rewrite (loadDatabase_Ok _ _ _ _ Hdec'). reflexivity.
Qed.

Lemma fileWatcher_retries_after_malformed_witness :
  let bad := sample.file 200%Z sample.truncated in
  let good := sample.file 200%Z (sample.document [sample.app_prod]) in
  os_Stat bad (dbFile sample.serving) = Ok (mkFileInfo 200%Z) ∧
  (lastMod sample.serving < ModTime (mkFileInfo 200%Z))%Z ∧
  os_ReadFile bad (dbFile sample.serving) = Ok sample.truncated ∧
  sample.json_Unmarshal sample.truncated = Err "unexpected end of JSON input" ∧
  os_Stat good (dbFile sample.serving) = Ok (mkFileInfo 200%Z) ∧
  os_ReadFile good (dbFile sample.serving)
  = Ok (sample.document [sample.app_prod]) ∧
  sample.json_Unmarshal (sample.document [sample.app_prod])
  = Ok (Some <$> [sample.app_prod]) ∧
  fileWatcher sample.json_Unmarshal [ticker_C bad; ticker_C good]
    sample.serving
  = Returns Selecting
      (mkSrv (generation [sample.app_prod]) sample.path 200%Z).
Proof.
  intros bad good.
  assert (lastMod sample.serving < ModTime (mkFileInfo 200%Z))%Z as Hnewer
    by (cbn; lia).
  assert (sample.json_Unmarshal sample.truncated
          = Err "unexpected end of JSON input") as Hbad
    by (vm_compute; reflexivity).
  assert (sample.json_Unmarshal (sample.document [sample.app_prod])
          = Ok (Some <$> [sample.app_prod])) as Hgood
    by (vm_compute; reflexivity).
  split; [reflexivity |]. split; [exact Hnewer |]. split; [reflexivity |].
  split; [exact Hbad |]. split; [reflexivity |]. split; [reflexivity |].
  split; [exact Hgood |].
  exact (fileWatcher_retries_after_malformed sample.json_Unmarshal bad good
           sample.serving (mkFileInfo 200%Z) (mkFileInfo 200%Z)
           sample.truncated (sample.document [sample.app_prod])
           "unexpected end of JSON input" [sample.app_prod]
           eq_refl Hnewer eq_refl Hbad eq_refl Hnewer eq_refl Hgood).
Defined.

(** * The load on the code, where it departs from the specification *)

(** C4, on the code: a document of three elements, the valid [app_dev], a
    [null], and the valid [app_prod]. It decodes without error, the [null] to
    a nil pointer. The load does not succeed: [Write] reads a field through
    the nil pointer and panics, the published store holds [app_dev] alone,
    and [app_prod], valid and after the [null], is lost; a reload of that file
    panics in the same way. A record that fails validation, in the place of
    the [null], is skipped and the load succeeds with both valid records. *)
Theorem loadDatabase_null_record_aborts :
  sample.json_Unmarshal_null sample.with_null
  = Ok [Some sample.app_dev; None; Some sample.app_prod] ∧
  loadDatabase sample.json_Unmarshal_null sample.with_null sample.serving
  = Panics (set_db (generation [sample.app_dev]) sample.serving) ∧
  all (generation [sample.app_dev]) = [sample.app_dev] ∧
  ReloadDatabase sample.json_Unmarshal_null
    (sample.file 200%Z sample.with_null) sample.serving
  = Panics (set_db (generation [sample.app_dev]) sample.serving) ∧
  loadDatabase sample.json_Unmarshal_null
    (sample.document [sample.app_dev; sample.nameless; sample.app_prod])
    sample.serving
  = Returns None
      (set_db (generation [sample.app_dev; sample.app_prod]) sample.serving).
Proof.
  assert (sample.json_Unmarshal_null sample.with_null
          = Ok [Some sample.app_dev; None; Some sample.app_prod]) as Hdec
    by (vm_compute; reflexivity).
  assert (loadDatabase sample.json_Unmarshal_null sample.with_null
            sample.serving
          = Panics (set_db (generation [sample.app_dev]) sample.serving))
    as Hload.
  { rewrite loadDatabase_outcome, Hdec. reflexivity. }
  split; [exact Hdec |]. split; [exact Hload |]. split; [reflexivity |].
  split.
  - rewrite (ReloadDatabase_newer sample.json_Unmarshal_null
               (sample.file 200%Z sample.with_null) sample.serving
               (mkFileInfo 200%Z) sample.with_null);
      [rewrite Hload; reflexivity | reflexivity | cbn; lia | reflexivity].
  - rewrite loadDatabase_outcome.
    assert (sample.json_Unmarshal_null
              (sample.document
                 [sample.app_dev; sample.nameless; sample.app_prod])
            = Ok [Some sample.app_dev; Some sample.nameless;
                  Some sample.app_prod]) as ->
      by (vm_compute; reflexivity).
    reflexivity.
Qed.

(** C9, on the code: the server holds [app_dev] and loads a file that holds
    [app_dev] and [app_prod]. The statements of the load are the assignment
    of a new, empty store to [s.db] and then the assignments of the two
    writes, and they end in the state [loadDatabase] ends in. A request for
    everything is answered with [app_dev] before the load and with both
    releases after it. After the first statement the published store is
    empty and the same request is answered with status 404 and no release,
    the answer of neither generation. After the second statement the
    published store lists [app_dev] in its full sequence and in none of its
    indices: it is not self-consistent, and the request for the pair [app],
    [dev] finds nothing where the request for everything returns
    [app_dev]. *)
Theorem loadDatabase_publishes_before_built :
  let data := sample.document [sample.app_dev; sample.app_prod] in
  let stmts := loadDatabase_stmts sample.json_Unmarshal data in
  let first := run_stmts (take 1 stmts) sample.serving in
  let second := run_stmts (take 2 stmts) sample.serving in
  let finished := run_stmts stmts sample.serving in
  stmts
  = [new_store;
     append_all sample.app_dev; append_byContainer sample.app_dev;
     append_byChannel sample.app_dev; assign_byBoth sample.app_dev;
     append_all sample.app_prod; append_byContainer sample.app_prod;
     append_byChannel sample.app_prod; assign_byBoth sample.app_prod] ∧
  final_state (loadDatabase sample.json_Unmarshal data sample.serving)
  = finished ∧
  queryHandler "" "" sample.serving
  = Returns (mkResponse StatusOK (JSON_Releases [sample.app_dev]))
      sample.serving ∧
  queryHandler "" "" finished
  = Returns
      (mkResponse StatusOK (JSON_Releases [sample.app_dev; sample.app_prod]))
      finished ∧
  queryHandler "" "" first
  = Returns (mkResponse StatusNotFound (JSON_Releases [])) first ∧
  ¬ consistent (db second) ∧
  queryHandler "" "" second
  = Returns (mkResponse StatusOK (JSON_Releases [sample.app_dev])) second ∧
  queryHandler "app" "dev" second
  = Returns (mkResponse StatusNotFound (JSON_Releases [])) second.
Proof.
  intros data stmts first second finished.
  split; [vm_compute; reflexivity |].
  split; [apply loadDatabase_stmts_adequate |].
  split; [vm_compute; reflexivity |].
  split; [vm_compute; reflexivity |].
  split; [vm_compute; reflexivity |].
  split.
  - intros (Hcontainer & _). specialize (Hcontainer "app").
    vm_compute in Hcontainer. discriminate Hcontainer.
  - split; vm_compute; reflexivity.
Qed.
